(** * go-xmldom: the DOM serializer of marshal.go

    A shallow embedding of the serialization entry points ([Marshal],
    [MarshalIndent], [MarshalIndentWithOptions]) and of the recursive
    writers ([serializeElementWithOptions], [serializeNodeWithOptions])
    together with the properties of the emitted XML text.

    Go strings are byte strings: they are modelled by [string], one
    [ascii] per byte.  The [bytes.Buffer] the writers share is modelled by
    explicit state passing: every writer takes the buffer contents and
    returns the new contents together with its [error] result.  The
    depth of a node is a [nat]: it starts at zero and grows by one per
    level of the tree.  The writers without options ([serializeElement],
    [serializeNode]), which no entry point calls, are embedded after
    them. *)

From Stdlib Require Import String Ascii List Bool Arith NArith Lia.
Import ListNotations.
Open Scope string_scope.

(** ** Byte strings *)

Definition DQUOTE : string := String "034"%char "".
Definition NEWLINE : string := String "010"%char "".

(** [s != ""] *)
Definition nonEmpty (s : string) : bool :=
  match s with "" => false | String _ _ => true end.

(** ** The part of Go's [unicode/utf8], [unicode] and [strings] packages
    that the serializer calls *)

Module utf8.

Definition rune := N.
Definition RuneError : rune := 65533%N.
Definition RuneSelf : N := 128%N.

Definition between (lo hi b : N) : bool := ((lo <=? b) && (b <=? hi))%N.

(** Continuation of a sequence whose second byte must lie in [lo, hi]
    and whose remaining [n] bytes must lie in [0x80, 0xBF]. *)
Fixpoint tail (n : nat) (acc : N) (s : string) : option N :=
  match n with
  | O => Some acc
  | S n' =>
      match s with
      | "" => None
      | String c s' =>
          let b := N_of_ascii c in
          if between 128 191 b
          then tail n' (N.lor (N.shiftl acc 6) (N.land b 63)) s'
          else None
      end
  end.

Definition sequence (lead_bits : N) (lo hi : N) (n : nat) (s : string)
  : rune * nat :=
  match s with
  | "" => (RuneError, 1)
  | String c s' =>
      let b := N_of_ascii c in
      if between lo hi b then
        match tail n (N.lor (N.shiftl lead_bits 6) (N.land b 63)) s' with
        | Some r => (r, 2 + n)
        | None => (RuneError, 1)
        end
      else (RuneError, 1)
  end.

(** [utf8.DecodeRuneInString]: the first rune of [s] and its width in
    bytes; [(RuneError, 0)] on the empty string and [(RuneError, 1)] on
    an encoding that is invalid, over-long, a surrogate or out of
    range. *)
Definition DecodeRuneInString (s : string) : rune * nat :=
  match s with
  | "" => (RuneError, 0)
  | String c s' =>
      let b := N_of_ascii c in
      if (b <? RuneSelf)%N then (b, 1)
      else if between 194 223 b then sequence (N.land b 31) 128 191 0 s'
      else if (b =? 224)%N then sequence (N.land b 15) 160 191 1 s'
      else if (b =? 237)%N then sequence (N.land b 15) 128 159 1 s'
      else if between 225 239 b then sequence (N.land b 15) 128 191 1 s'
      else if (b =? 240)%N then sequence (N.land b 7) 144 191 2 s'
      else if (b =? 244)%N then sequence (N.land b 7) 128 143 2 s'
      else if between 241 243 b then sequence (N.land b 7) 128 191 2 s'
      else (RuneError, 1)
  end.

(** The runes of [s] with their widths, in order; [skip] counts the
    bytes of the current rune that are still to be passed over. *)
Fixpoint decode (s : string) (skip : nat) : list (rune * nat) :=
  match s with
  | "" => []
  | String _ s' =>
      match skip with
      | S k => decode s' k
      | O => let rw := DecodeRuneInString s in rw :: decode s' (snd rw - 1)
      end
  end.

End utf8.

Module unicode.

(** [unicode.IsSpace]: the Latin-1 spaces, then the [White_Space]
    range table. *)
Definition IsSpace (r : utf8.rune) : bool :=
  if (r <=? 255)%N then
    utf8.between 9 13 r || (r =? 32)%N || (r =? 133)%N || (r =? 160)%N
  else
    (r =? 5760)%N || utf8.between 8192 8202 r || utf8.between 8232 8233 r
    || (r =? 8239)%N || (r =? 8287)%N || (r =? 12288)%N.

End unicode.

Module strings.

(** [strings.Repeat(s, count)] for the non-negative counts the
    serializer passes. *)
Fixpoint Repeat (s : string) (count : nat) : string :=
  match count with
  | O => ""
  | S n => s ++ Repeat s n
  end.

Fixpoint HasPrefix (s prefix : string) {struct prefix} : bool :=
  match prefix with
  | "" => true
  | String p prefix' =>
      match s with
      | "" => false
      | String c s' => Ascii.eqb c p && HasPrefix s' prefix'
      end
  end.

(** [strings.Contains(s, substr)]: [substr] occurs within [s]. *)
Fixpoint Contains (s substr : string) : bool :=
  HasPrefix s substr
  || match s with
     | "" => false
     | String _ s' => Contains s' substr
     end.

(** [strings.ReplaceAll(s, old, new)] for a non-empty [old]: the
    non-overlapping occurrences of [old], leftmost first, are replaced
    by [new].  [skip] counts the bytes of the occurrence being replaced
    that are still to be dropped. *)
Fixpoint replace (s old new : string) (skip : nat) : string :=
  match s with
  | "" => ""
  | String c s' =>
      match skip with
      | S k => replace s' old new k
      | O =>
          if HasPrefix s old
          then new ++ replace s' old new (String.length old - 1)
          else String c (replace s' old new 0)
      end
  end.

(** With an empty [old], Go inserts [new] before every rune and at the
    end of [s]. *)
Fixpoint intersperse (s new : string) (skip : nat) : string :=
  match s with
  | "" => new
  | String c s' =>
      match skip with
      | S k => String c (intersperse s' new k)
      | O =>
          new ++ String c
            (intersperse s' new (snd (utf8.DecodeRuneInString s) - 1))
      end
  end.

Definition ReplaceAll (s old new : string) : string :=
  if nonEmpty old then replace s old new 0 else intersperse s new 0.

Definition isSpace (rw : utf8.rune * nat) : bool := unicode.IsSpace (fst rw).

Fixpoint dropWhile {A} (f : A -> bool) (l : list A) : list A :=
  match l with
  | [] => []
  | x :: l' => if f x then dropWhile f l' else l
  end.

Definition width (l : list (utf8.rune * nat)) : nat :=
  fold_right (fun rw n => snd rw + n) 0 l.

(** [strings.TrimSpace(s)]: [s] without its leading and trailing white
    space runes, as defined by Unicode. *)
Definition TrimSpace (s : string) : string :=
  let runes := utf8.decode s 0 in
  let rest := dropWhile isSpace runes in
  let kept := rev (dropWhile isSpace (rev rest)) in
  substring (width runes - width rest) (width kept) s.

End strings.

(** ** The DOM values the serializer reads

    The interface hierarchy of the DOM is a tagged variant: the
    constructor is what [NodeType()] and the type assertions
    ([node.(Element)], [node.(Text)], ...) observe together.  The child
    nodes of an element are the chain that [FirstChild()] and
    [NextSibling()] walk. *)

Definition DOMString := string.

Inductive NodeType : Set :=
| ELEMENT_NODE | ATTRIBUTE_NODE | TEXT_NODE | CDATA_SECTION_NODE
| ENTITY_REFERENCE_NODE | ENTITY_NODE | PROCESSING_INSTRUCTION_NODE
| COMMENT_NODE | DOCUMENT_NODE | DOCUMENT_TYPE_NODE
| DOCUMENT_FRAGMENT_NODE | NOTATION_NODE.

(** An item of an element's attribute map: [Name()] and [Value()].  The
    map of an element holds Attr nodes only, so the tests the attribute
    loop makes on every item ([attr != nil], its node type, the
    assertion [attr.(Attr)]) succeed. *)
Record Attr : Set := mkAttr { Name : DOMString; Value : DOMString }.

(** [OtherNode kind] stands for the nodes the serializer writes nothing
    for: those of the remaining kinds, and those whose dynamic type does
    not match the kind they report. *)
Inductive Node : Set :=
| ElementNode (elem : Element)
| TextNode (data : DOMString)
| CommentNode (data : DOMString)
| CDATASectionNode (data : DOMString)
| ProcessingInstructionNode (target data : DOMString)
| OtherNode (kind : NodeType)
with Element : Set :=
| mkElement (tagName : DOMString) (attributes : list Attr)
            (firstChild : Siblings)
with Siblings : Set :=
| NoNode
| Sibling (node : Node) (nextSibling : Siblings).

Scheme Node_mut := Induction for Node Sort Prop
  with Element_mut := Induction for Element Sort Prop
  with Siblings_mut := Induction for Siblings Sort Prop.
Combined Scheme DOM_mutind from Node_mut, Element_mut, Siblings_mut.

Definition TagName (elem : Element) : DOMString :=
  match elem with mkElement tagName _ _ => tagName end.

Definition Attributes (elem : Element) : list Attr :=
  match elem with mkElement _ attributes _ => attributes end.

Definition FirstChild (elem : Element) : Siblings :=
  match elem with mkElement _ _ firstChild => firstChild end.

Definition HasChildNodes (elem : Element) : bool :=
  match FirstChild elem with NoNode => false | Sibling _ _ => true end.

Fixpoint siblings (l : list Node) : Siblings :=
  match l with
  | [] => NoNode
  | node :: l' => Sibling node (siblings l')
  end.

(** A document, as the serializer sees it: [DocumentElement()] is the
    root element or nil. *)
Record Document : Set := mkDocument { DocumentElement : option Element }.

(** The DOM values handed to the entry points as [v interface{}]: the
    type switch of [Marshal] tells a Document, an Element and any other
    Node apart. *)
Inductive DOMValue : Set :=
| DocumentValue (doc : Document)
| NodeValue (node : Node).

(** Go's [error]: nil or an error value. *)
Definition error := option string.
Definition nil : error := None.

(** ** marshal.go *)

Definition Buffer := string.

Definition WriteString (buf : Buffer) (s : string) : Buffer := buf ++ s.

Definition XMLDeclaration : string :=
  "<?xml version=" ++ DQUOTE ++ "1.0" ++ DQUOTE ++ "?>".

Section Marshal.

(** [EscapeString] is declared in another file of the package; the
    serializer is embedded over any function of its type. *)
Variable EscapeString : string -> string.

(** The body of the attribute loop of [serializeElementWithOptions]. *)
Definition writeAttribute (preserveWhitespace : bool)
  (buf : Buffer) (attrNode : Attr) : Buffer :=
  let buf := WriteString buf " " in
  let buf := WriteString buf (Name attrNode) in
  let attrValue := Value attrNode in
  let useSingleQuote := strings.Contains attrValue DQUOTE in
  if useSingleQuote then
    let buf := WriteString buf "='" in
    let buf :=
      if negb preserveWhitespace
      then WriteString buf
             (strings.ReplaceAll (EscapeString attrValue) DQUOTE DQUOTE)
      else WriteString buf attrValue in
    WriteString buf "'"
  else
    let buf := WriteString buf ("=" ++ DQUOTE) in
    let buf :=
      if negb preserveWhitespace
      then WriteString buf (EscapeString attrValue)
      else WriteString buf attrValue in
    WriteString buf DQUOTE.

(** The attribute loop, over the items of [elem.Attributes()] in
    order. *)
Definition writeAttributes (preserveWhitespace : bool)
  (buf : Buffer) (attrs : list Attr) : Buffer :=
  fold_left (writeAttribute preserveWhitespace) attrs buf.

(** [if indent != "" { buf.WriteString(strings.Repeat(indent, depth)) }] *)
Definition indentation (indent : string) (depth : nat) (buf : Buffer)
  : Buffer :=
  if nonEmpty indent then WriteString buf (strings.Repeat indent depth)
  else buf.

(** [if indent != "" { buf.WriteString("\n") }] *)
Definition lineEnd (indent : string) (buf : Buffer) : Buffer :=
  if nonEmpty indent then WriteString buf NEWLINE else buf.

(** [serializeElementWithOptions], the loop over the children of an
    element, and [serializeNodeWithOptions] call one another; [children]
    is the part of [serializeElementWithOptions] from the loop on. *)
Fixpoint serializeElementWithOptions (buf : Buffer) (elem : Element)
  (skipRoot : bool) (prefix indent : string) (depth : nat)
  (preserveWhitespace : bool) {struct elem} : Buffer * error :=
  let children (buf : Buffer) : Buffer * error :=
    match serializeChildren buf (FirstChild elem) prefix indent (depth + 1)
            preserveWhitespace with
    | (buf, Some err) => (buf, Some err)
    | (buf, None) =>
        if negb skipRoot then
          let buf := indentation indent depth buf in
          let buf := WriteString buf "</" in
          let buf := WriteString buf (TagName elem) in
          let buf := WriteString buf ">" in
          (lineEnd indent buf, nil)
        else (buf, nil)
    end in
  let buf :=
    if nonEmpty indent && negb skipRoot
    then WriteString buf (strings.Repeat indent depth) else buf in
  if negb skipRoot then
    let buf := WriteString buf "<" in
    let buf := WriteString buf (TagName elem) in
    let buf := writeAttributes preserveWhitespace buf (Attributes elem) in
    let hasChildren := HasChildNodes elem in
    if negb hasChildren then
      let buf := WriteString buf "></" in
      let buf := WriteString buf (TagName elem) in
      let buf := WriteString buf ">" in
      (lineEnd indent buf, nil)
    else
      let buf := WriteString buf ">" in
      let buf :=
        if nonEmpty indent && hasChildren
        then WriteString buf NEWLINE else buf in
      children buf
  else children buf

(** The loop [for child := elem.FirstChild(); child != nil;
    child = child.NextSibling()], which returns at the first error. *)
with serializeChildren (buf : Buffer) (child : Siblings)
  (prefix indent : string) (depth : nat) (preserveWhitespace : bool)
  {struct child} : Buffer * error :=
  match child with
  | NoNode => (buf, nil)
  | Sibling node next =>
      match serializeNodeWithOptions buf node prefix indent depth
              preserveWhitespace with
      | (buf, Some err) => (buf, Some err)
      | (buf, None) =>
          serializeChildren buf next prefix indent depth preserveWhitespace
      end
  end

with serializeNodeWithOptions (buf : Buffer) (node : Node)
  (prefix indent : string) (depth : nat) (preserveWhitespace : bool)
  {struct node} : Buffer * error :=
  match node with
  | ElementNode elem =>
      serializeElementWithOptions buf elem false prefix indent depth
        preserveWhitespace
  | TextNode data =>
      let textData := data in
      if nonEmpty indent && negb (nonEmpty (strings.TrimSpace textData))
      then (buf, nil)
      else
        let buf := indentation indent depth buf in
        let buf :=
          if preserveWhitespace then WriteString buf textData
          else WriteString buf (EscapeString textData) in
        (lineEnd indent buf, nil)
  | CommentNode data =>
      let buf := indentation indent depth buf in
      let buf := WriteString buf "<!--" in
      let buf :=
        if preserveWhitespace then WriteString buf data
        else WriteString buf (EscapeString data) in
      let buf := WriteString buf "-->" in
      (lineEnd indent buf, nil)
  | CDATASectionNode data =>
      let buf := indentation indent depth buf in
      let buf := WriteString buf "<![CDATA[" in
      let buf := WriteString buf data in
      let buf := WriteString buf "]]>" in
      (lineEnd indent buf, nil)
  | ProcessingInstructionNode target data =>
      let buf := indentation indent depth buf in
      let buf := WriteString buf "<?" in
      let buf := WriteString buf target in
      let buf :=
        if nonEmpty data
        then WriteString (WriteString buf " ") data else buf in
      let buf := WriteString buf "?>" in
      (lineEnd indent buf, nil)
  | OtherNode _ => (buf, nil)
  end.

(** [[]byte] results are byte strings; the nil slice returned next to an
    error is the empty one. *)
Definition marshalDOMWithOptions (doc : Document) (prefix indent : string)
  (preserveWhitespace : bool) : string * error :=
  let buf : Buffer := "" in
  let buf := WriteString buf XMLDeclaration in
  let buf := if nonEmpty indent then WriteString buf NEWLINE else buf in
  let root := DocumentElement doc in
  match root with
  | None => (buf, nil)
  | Some root =>
      match serializeElementWithOptions buf root false prefix indent 0
              preserveWhitespace with
      | (_, Some err) => ("", Some err)
      | (buf, None) => (buf, nil)
      end
  end.

Definition marshalDOM (doc : Document) (prefix indent : string)
  (preserveWhitespace : bool) : string * error :=
  marshalDOMWithOptions doc prefix indent preserveWhitespace.

Definition marshalElementWithOptions (elem : Element)
  (prefix indent : string) (preserveWhitespace : bool) : string * error :=
  let buf : Buffer := "" in
  match serializeElementWithOptions buf elem false prefix indent 0
          preserveWhitespace with
  | (_, Some err) => ("", Some err)
  | (buf, None) => (buf, nil)
  end.

Definition marshalElement (elem : Element) (prefix indent : string)
  (preserveWhitespace : bool) : string * error :=
  marshalElementWithOptions elem prefix indent preserveWhitespace.

Definition marshalNodeWithOptions (node : Node) (prefix indent : string)
  (preserveWhitespace : bool) : string * error :=
  let buf : Buffer := "" in
  match serializeNodeWithOptions buf node prefix indent 0
          preserveWhitespace with
  | (_, Some err) => ("", Some err)
  | (buf, None) => (buf, nil)
  end.

(** [marshalNode] passes [false] on, whatever its last argument. *)
Definition marshalNode (node : Node) (prefix indent : string)
  (preserveWhitespace : bool) : string * error :=
  marshalNodeWithOptions node prefix indent false.

(** The entry points on DOM values.  The last case of their type switch,
    which hands any other Go value to [encoding/xml], is not reached by a
    [DOMValue]. *)
Definition Marshal (v : DOMValue) : string * error :=
  match v with
  | DocumentValue doc => marshalDOM doc "" "" true
  | NodeValue (ElementNode elem) => marshalElement elem "" "" true
  | NodeValue node => marshalNode node "" "" true
  end.

Definition MarshalIndentWithOptions (v : DOMValue) (prefix indent : string)
  (preserveWhitespace : bool) : string * error :=
  match v with
  | DocumentValue doc =>
      marshalDOMWithOptions doc prefix indent preserveWhitespace
  | NodeValue (ElementNode elem) =>
      marshalElementWithOptions elem prefix indent preserveWhitespace
  | NodeValue node =>
      marshalNodeWithOptions node prefix indent preserveWhitespace
  end.

Definition MarshalIndent (v : DOMValue) (prefix indent : string)
  (preserveWhitespace : bool) : string * error :=
  MarshalIndentWithOptions v prefix indent preserveWhitespace.

End Marshal.

(** The indentation and the line end an indented writer emits. *)
Definition indentOf (indent : string) (depth : nat) : string :=
  if nonEmpty indent then strings.Repeat indent depth else "".

Definition lineEndOf (indent : string) : string :=
  if nonEmpty indent then NEWLINE else "".

(** The open tag of an element up to, and without, its closing [>]. *)
Definition openTag (EscapeString : string -> string) (pw : bool)
  (elem : Element) : string :=
  "<" ++ TagName elem ++ writeAttributes EscapeString pw "" (Attributes elem).

(** The document of the end-to-end scenario: root [books], its child
    [book] with the attribute [id="1"], whose child [title] holds the
    text [Go]. *)
Definition booksDoc : Document :=
  mkDocument (Some
    (mkElement "books" []
       (siblings [ElementNode
          (mkElement "book" [mkAttr "id" "1"]
             (siblings [ElementNode
                (mkElement "title" [] (siblings [TextNode "Go"]))]))]))).

(** A string that consists entirely of white space: every rune of its
    UTF-8 decoding is a Unicode space. *)
Definition whitespaceOnly (data : string) : bool :=
  forallb strings.isSpace (utf8.decode data 0).

Module xml.

(** Modelled from the spec: the entity the package's [EscapeString]
    writes for one byte; see [EscapeText]. *)
Definition escapeByte (c : ascii) : string :=
  if Ascii.eqb c "&" then "&amp;"
  else if Ascii.eqb c "<" then "&lt;"
  else if Ascii.eqb c ">" then "&gt;"
  else if Ascii.eqb c "034" then "&#34;"
  else if Ascii.eqb c "'" then "&#39;"
  else if Ascii.eqb c "009" then "&#x9;"
  else if Ascii.eqb c "010" then "&#xA;"
  else if Ascii.eqb c "013" then "&#xD;"
  else String c "".

(** Modelled from the spec: the package's [EscapeString], which
    marshal.go calls and another file declares.  The spec has text
    XML-escaped ([&], [<], [>], and the two quotes) and has newline and
    tab escaped unless [preserve_whitespace] is set; the entities are
    spelled as [encoding/xml] spells them.  It serves as the instance at
    which the statements below, which hold for any function in its
    place, are evaluated. *)
Fixpoint EscapeText (s : string) : string :=
  match s with
  | "" => ""
  | String c s' => escapeByte c ++ EscapeText s'
  end.

End xml.

(** The text [s] ends a line: what is written after it starts one. *)
Definition lineStart (s : string) : Prop :=
  s = "" \/ exists t, s = t ++ NEWLINE.

(** A document whose root [p] holds the text [R&D <b>]. *)
Definition textDoc : Document :=
  mkDocument (Some (mkElement "p" [] (Sibling (TextNode "R&D <b>") NoNode))).

(** A document whose root [q] has the attribute [cond] with the value
    [a<b] and holds the text [x&y]. *)
Definition condDoc : Document :=
  mkDocument
    (Some (mkElement "q" [mkAttr "cond" "a<b"]
             (Sibling (TextNode "x&y") NoNode))).

(** An element whose attribute [t] has the value [it's "x"]. *)
Definition quotedElement : Element :=
  mkElement "a" [mkAttr "t" ("it's " ++ DQUOTE ++ "x" ++ DQUOTE)] NoNode.

(** ** The writers without options

    [serializeElement] and [serializeNode] are the writers that take no
    [preserveWhitespace] argument. *)

Section Plain.

Variable EscapeString : string -> string.

(** The body of the attribute loop of [serializeElement]. *)
Definition writeAttributePlain (buf : Buffer) (attrNode : Attr) : Buffer :=
  let buf := WriteString buf " " in
  let buf := WriteString buf (Name attrNode) in
  let attrValue := Value attrNode in
  let useSingleQuote := strings.Contains attrValue DQUOTE in
  if useSingleQuote then
    let buf := WriteString buf "='" in
    let buf := WriteString buf attrValue in
    WriteString buf "'"
  else
    let buf := WriteString buf ("=" ++ DQUOTE) in
    let buf := WriteString buf (EscapeString attrValue) in
    WriteString buf DQUOTE.

Definition writeAttributesPlain (buf : Buffer) (attrs : list Attr)
  : Buffer :=
  fold_left writeAttributePlain attrs buf.

(** [serializeElement], its loop over the children and [serializeNode]
    call one another, as their counterparts with options do. *)
Fixpoint serializeElement (buf : Buffer) (elem : Element)
  (skipRoot : bool) (prefix indent : string) (depth : nat)
  {struct elem} : Buffer * error :=
  let children (buf : Buffer) : Buffer * error :=
    match serializeChildNodes buf (FirstChild elem) prefix indent
            (depth + 1) with
    | (buf, Some err) => (buf, Some err)
    | (buf, None) =>
        if negb skipRoot then
          let buf := indentation indent depth buf in
          let buf := WriteString buf "</" in
          let buf := WriteString buf (TagName elem) in
          let buf := WriteString buf ">" in
          (lineEnd indent buf, nil)
        else (buf, nil)
    end in
  let buf :=
    if nonEmpty indent && negb skipRoot
    then WriteString buf (strings.Repeat indent depth) else buf in
  if negb skipRoot then
    let buf := WriteString buf "<" in
    let buf := WriteString buf (TagName elem) in
    let buf := writeAttributesPlain buf (Attributes elem) in
    let hasChildren := HasChildNodes elem in
    if negb hasChildren then
      let buf := WriteString buf "></" in
      let buf := WriteString buf (TagName elem) in
      let buf := WriteString buf ">" in
      (lineEnd indent buf, nil)
    else
      let buf := WriteString buf ">" in
      let buf :=
        if nonEmpty indent && hasChildren
        then WriteString buf NEWLINE else buf in
      children buf
  else children buf

with serializeChildNodes (buf : Buffer) (child : Siblings)
  (prefix indent : string) (depth : nat) {struct child}
  : Buffer * error :=
  match child with
  | NoNode => (buf, nil)
  | Sibling node next =>
      match serializeNode buf node prefix indent depth with
      | (buf, Some err) => (buf, Some err)
      | (buf, None) => serializeChildNodes buf next prefix indent depth
      end
  end

with serializeNode (buf : Buffer) (node : Node) (prefix indent : string)
  (depth : nat) {struct node} : Buffer * error :=
  match node with
  | ElementNode elem =>
      serializeElement buf elem false prefix indent depth
  | TextNode data =>
      let textData := data in
      if nonEmpty indent && negb (nonEmpty (strings.TrimSpace textData))
      then (buf, nil)
      else
        let buf := indentation indent depth buf in
        let buf := WriteString buf (EscapeString textData) in
        (lineEnd indent buf, nil)
  | CommentNode data =>
      let buf := indentation indent depth buf in
      let buf := WriteString buf "<!--" in
      let buf := WriteString buf data in
      let buf := WriteString buf "-->" in
      (lineEnd indent buf, nil)
  | CDATASectionNode data =>
      let buf := indentation indent depth buf in
      let buf := WriteString buf "<![CDATA[" in
      let buf := WriteString buf data in
      let buf := WriteString buf "]]>" in
      (lineEnd indent buf, nil)
  | ProcessingInstructionNode target data =>
      let buf := indentation indent depth buf in
      let buf := WriteString buf "<?" in
      let buf := WriteString buf target in
      let buf :=
        if nonEmpty data
        then WriteString (WriteString buf " ") data else buf in
      let buf := WriteString buf "?>" in
      (lineEnd indent buf, nil)
  | OtherNode _ => (buf, nil)
  end.

End Plain.

(** ** Shapes of trees *)

(** The child nodes of an element, first to last. *)
Fixpoint ChildNodes (child : Siblings) : list Node :=
  match child with
  | NoNode => []
  | Sibling node next => node :: ChildNodes next
  end.

Definition concatAll (l : list string) : string := fold_right append "" l.

(** A subtree without comments and without attribute values that hold a
    double quote. *)
Fixpoint plainNode (node : Node) : bool :=
  match node with
  | ElementNode elem => plainElement elem
  | CommentNode _ => false
  | _ => true
  end
with plainElement (elem : Element) : bool :=
  match elem with
  | mkElement _ attributes firstChild =>
      forallb (fun a => negb (strings.Contains (Value a) DQUOTE)) attributes
      && plainChildren firstChild
  end
with plainChildren (child : Siblings) : bool :=
  match child with
  | NoNode => true
  | Sibling node next => plainNode node && plainChildren next
  end.

(** Every node of the chain is a Text node whose data is entirely white
    space. *)
Fixpoint whitespaceTexts (child : Siblings) : bool :=
  match child with
  | NoNode => true
  | Sibling (TextNode data) next => whitespaceOnly data && whitespaceTexts next
  | Sibling _ _ => false
  end.

(** The open tag [serializeElement] writes, without its closing [>]. *)
Definition openTagPlain (EscapeString : string -> string) (elem : Element)
  : string :=
  "<" ++ TagName elem ++ writeAttributesPlain EscapeString "" (Attributes elem).

(** One attribute as XML text: a space, the name, [=] and the value
    between quotes, single quotes when the value holds a double quote;
    the value is escaped when [escape] is set. *)
Definition attributeText (EscapeString : string -> string) (escape : bool)
  (attr : Attr) : string :=
  let quote :=
    if strings.Contains (Value attr) DQUOTE then "'" else DQUOTE in
  " " ++ Name attr ++ "=" ++ quote
      ++ (if escape then EscapeString (Value attr) else Value attr)
      ++ quote.

(** The escape function that changes nothing. *)
Definition noEscape (s : string) : string := s.

(** ** Text that spells the XML declaration *)

(** The string holds no question mark. *)
Fixpoint questionFree (s : string) : bool :=
  match s with
  | "" => true
  | String c s' => negb (Ascii.eqb c "?") && questionFree s'
  end.

(** [r] parts from [p]: at a position that both have, their bytes
    differ. *)
Fixpoint divergesFrom (p r : string) {struct p} : bool :=
  match p, r with
  | String a p', String b r' =>
      if Ascii.eqb a b then divergesFrom p' r' else true
  | _, _ => false
  end.

(** The declaration without its two delimiters, and after its opening
    delimiter: [XMLDeclaration] is ["<?"] followed by
    [declarationRest]. *)
Definition declarationText : string :=
  "xml version=" ++ DQUOTE ++ "1.0" ++ DQUOTE.

Definition declarationRest : string := declarationText ++ "?>".

(** Every question mark of [s] is followed, within [s], by text that
    parts from [declarationRest]: no declaration starts in [s], whatever
    is written after it. *)
Fixpoint declarationSafe (s : string) : bool :=
  match s with
  | "" => true
  | String c s' =>
      (if Ascii.eqb c "?" then divergesFrom declarationRest s' else true)
      && declarationSafe s'
  end.

(** What a processing instruction holds between its delimiters. *)
Definition instructionText (target data : DOMString) : string :=
  target ++ (if nonEmpty data then " " ++ data else "").

(** The data of the subtree does not spell a declaration: no tag name,
    attribute name or value, text, comment, CDATA section, target or
    instruction data holds a question mark, and no processing
    instruction holds the text of the declaration. *)
Fixpoint spellsNoDeclaration (node : Node) : bool :=
  match node with
  | ElementNode elem => spellsNoDeclarationElement elem
  | TextNode data | CommentNode data | CDATASectionNode data =>
      questionFree data
  | ProcessingInstructionNode target data =>
      questionFree target && questionFree data
      && negb (String.eqb (instructionText target data) declarationText)
  | OtherNode _ => true
  end
with spellsNoDeclarationElement (elem : Element) : bool :=
  match elem with
  | mkElement tagName attributes firstChild =>
      questionFree tagName
      && forallb (fun a => questionFree (Name a) && questionFree (Value a))
           attributes
      && spellsNoDeclarationChildren firstChild
  end
with spellsNoDeclarationChildren (child : Siblings) : bool :=
  match child with
  | NoNode => true
  | Sibling node next =>
      spellsNoDeclaration node && spellsNoDeclarationChildren next
  end.

(** ** Byte string lemmas *)

Lemma append_nil_r (s : string) : s ++ "" = s.
Proof. induction s as [|c s IH]; simpl; [reflexivity | now rewrite IH]. Qed.

Lemma append_assoc (s t u : string) : (s ++ t) ++ u = s ++ (t ++ u).
Proof. induction s as [|c s IH]; simpl; [reflexivity | now rewrite IH]. Qed.

Lemma nonEmpty_true (s : string) : nonEmpty s = true <-> s <> "".
Proof. destruct s; simpl; split; congruence. Qed.

Lemma append_inj_l (s t u : string) : s ++ t = s ++ u -> t = u.
Proof.
  induction s as [|c s IH]; simpl; intros H; [exact H|].
  injection H as H. now apply IH.
Qed.

(** ** The Go library functions on small inputs *)

Example DecodeRuneInString_examples :
  utf8.DecodeRuneInString "a" = (97%N, 1)
  /\ utf8.DecodeRuneInString (String "194" (String "160" "x")) = (160%N, 2)
  /\ utf8.DecodeRuneInString
       (String "226" (String "128" (String "168" ""))) = (8232%N, 3)
  /\ utf8.DecodeRuneInString (String "160" "x") = (utf8.RuneError, 1)
  /\ utf8.DecodeRuneInString (String "192" (String "128" ""))
     = (utf8.RuneError, 1).
Proof. repeat split. Qed.

Example TrimSpace_examples :
  strings.TrimSpace ("  a b " ++ NEWLINE) = "a b"
  /\ strings.TrimSpace (" " ++ String "009" NEWLINE) = ""
  /\ strings.TrimSpace (String "194" (String "160" "x ")) = "x"
  /\ strings.TrimSpace (String "160" " ") = String "160" "".
Proof. repeat split. Qed.

Example Contains_examples :
  strings.Contains "say 'hi'" "'" = true
  /\ strings.Contains ("a" ++ DQUOTE) DQUOTE = true
  /\ strings.Contains "abc" "" = true
  /\ strings.Contains "abc" "bd" = false.
Proof. repeat split. Qed.

Example ReplaceAll_examples :
  strings.ReplaceAll "banana" "an" "AN" = "bANANa"
  /\ strings.ReplaceAll "aaa" "aa" "b" = "ba"
  /\ strings.ReplaceAll "ab" "" "-" = "-a-b-".
Proof. repeat split. Qed.

(** ** What the writers append *)

Section Output.

Variable EscapeString : string -> string.

Local Abbreviation serNode := (serializeNodeWithOptions EscapeString).
Local Abbreviation serElement := (serializeElementWithOptions EscapeString).
Local Abbreviation serChain := (serializeChildren EscapeString).

Ltac strings :=
  unfold indentation, lineEnd, WriteString;
  repeat first [rewrite append_assoc | progress cbn [append negb]];
  rewrite ?append_nil_r.

Lemma writeAttributes_frame pw attrs buf :
  writeAttributes EscapeString pw buf attrs
  = buf ++ writeAttributes EscapeString pw "" attrs.
Proof.
  unfold writeAttributes. revert buf.
  induction attrs as [|a attrs IH]; intros buf; simpl.
  - now rewrite append_nil_r.
  - rewrite IH. rewrite (IH (writeAttribute _ _ "" a)).
    rewrite <- append_assoc. f_equal.
    unfold writeAttribute.
    destruct (strings.Contains (Value a) DQUOTE), pw; strings.
    all: reflexivity.
Qed.

Lemma indentation_eq indent depth buf :
  indentation indent depth buf = buf ++ indentOf indent depth.
Proof.
  unfold indentation, indentOf, WriteString.
  destruct (nonEmpty indent); [reflexivity | now rewrite append_nil_r].
Qed.

Lemma lineEnd_eq indent buf : lineEnd indent buf = buf ++ lineEndOf indent.
Proof.
  unfold lineEnd, lineEndOf, WriteString.
  destruct (nonEmpty indent); [reflexivity | now rewrite append_nil_r].
Qed.

Lemma serializeElement_empty buf elem prefix indent depth pw :
  HasChildNodes elem = false ->
  serElement buf elem false prefix indent depth pw
  = (buf ++ indentOf indent depth ++ openTag EscapeString pw elem
         ++ "></" ++ TagName elem ++ ">" ++ lineEndOf indent, nil).
Proof.
  intros Hc. destruct elem as [tag attrs ch]. cbn [serializeElementWithOptions].
  rewrite Hc. cbn [negb andb].
  rewrite andb_true_r. rewrite lineEnd_eq. unfold openTag.
  rewrite (writeAttributes_frame pw attrs).
  unfold indentOf, WriteString. cbn [TagName Attributes].
  destruct (nonEmpty indent); strings; reflexivity.
Qed.

Lemma serializeElement_children buf elem prefix indent depth pw :
  HasChildNodes elem = true ->
  serElement buf elem false prefix indent depth pw
  = match serChain
            (buf ++ indentOf indent depth ++ openTag EscapeString pw elem ++ ">"
                 ++ lineEndOf indent)
            (FirstChild elem) prefix indent (depth + 1) pw with
    | (buf', Some err) => (buf', Some err)
    | (buf', None) =>
        (buf' ++ indentOf indent depth ++ "</" ++ TagName elem ++ ">"
              ++ lineEndOf indent, nil)
    end.
Proof.
  intros Hc. destruct elem as [tag attrs ch]. cbn [serializeElementWithOptions].
  rewrite Hc. cbn [negb andb].
  rewrite !andb_true_r. unfold openTag.
  rewrite (writeAttributes_frame pw attrs).
  cbn [TagName Attributes FirstChild].
  match goal with
  | |- match serChain ?b1 _ _ _ _ _ with _ => _ end
       = match serChain ?b2 _ _ _ _ _ with _ => _ end =>
      replace b1 with b2
  end.
  - destruct (serChain _ ch prefix indent (depth + 1) pw) as [b [e|]];
      [reflexivity|].
    rewrite lineEnd_eq, indentation_eq. unfold WriteString.
    repeat rewrite append_assoc. reflexivity.
  - unfold indentOf, lineEndOf, WriteString.
    destruct (nonEmpty indent); strings; reflexivity.
Qed.

Lemma serializeElement_skipRoot buf elem prefix indent depth pw :
  serElement buf elem true prefix indent depth pw
  = serChain buf (FirstChild elem) prefix indent (depth + 1) pw.
Proof.
  destruct elem as [tag attrs ch]. cbn [serializeElementWithOptions].
  rewrite andb_false_r. cbn [negb FirstChild].
  now destruct (serChain buf ch prefix indent (depth + 1) pw)
    as [b [e|]].
Qed.

Lemma serializeNode_text buf data prefix indent depth pw :
  serNode buf (TextNode data) prefix indent depth pw
  = if nonEmpty indent && negb (nonEmpty (strings.TrimSpace data))
    then (buf, nil)
    else (buf ++ indentOf indent depth
              ++ (if pw then data else EscapeString data)
              ++ lineEndOf indent, nil).
Proof.
  cbn [serializeNodeWithOptions].
  destruct (nonEmpty indent && negb (nonEmpty (strings.TrimSpace data)));
    [reflexivity|].
  rewrite lineEnd_eq, indentation_eq. unfold WriteString.
  destruct pw; now strings.
Qed.

Lemma serializeNode_comment buf data prefix indent depth pw :
  serNode buf (CommentNode data) prefix indent depth pw
  = (buf ++ indentOf indent depth ++ "<!--"
         ++ (if pw then data else EscapeString data)
         ++ "-->" ++ lineEndOf indent, nil).
Proof.
  cbn [serializeNodeWithOptions].
  rewrite lineEnd_eq, indentation_eq. unfold WriteString.
  destruct pw; now strings.
Qed.

Lemma serializeNode_cdata buf data prefix indent depth pw :
  serNode buf (CDATASectionNode data) prefix indent depth pw
  = (buf ++ indentOf indent depth ++ "<![CDATA[" ++ data ++ "]]>"
         ++ lineEndOf indent, nil).
Proof.
  cbn [serializeNodeWithOptions].
  rewrite lineEnd_eq, indentation_eq. unfold WriteString. now strings.
Qed.

Lemma serializeNode_pi buf target data prefix indent depth pw :
  serNode buf (ProcessingInstructionNode target data) prefix indent depth pw
  = (buf ++ indentOf indent depth ++ "<?" ++ target
         ++ (if nonEmpty data then " " ++ data else "")
         ++ "?>" ++ lineEndOf indent, nil).
Proof.
  cbn [serializeNodeWithOptions].
  rewrite lineEnd_eq, indentation_eq. unfold WriteString.
  destruct (nonEmpty data); now strings.
Qed.

(** Every writer appends to the buffer it is given, what it appends does
    not depend on what the buffer holds, and it returns a nil error. *)
Lemma serialize_frame :
  (forall node buf prefix indent depth pw,
      serNode buf node prefix indent depth pw
      = (buf ++ fst (serNode "" node prefix indent depth pw), nil))
  /\ (forall elem buf skipRoot prefix indent depth pw,
      serElement buf elem skipRoot prefix indent depth pw
      = (buf ++ fst (serElement "" elem skipRoot prefix indent depth pw),
         nil))
  /\ (forall child buf prefix indent depth pw,
      serChain buf child prefix indent depth pw
      = (buf ++ fst (serChain "" child prefix indent depth pw), nil)).
Proof.
  apply DOM_mutind.
  - intros elem IH buf prefix indent depth pw.
    cbn [serializeNodeWithOptions]. apply IH.
  - intros data buf prefix indent depth pw.
    rewrite !serializeNode_text.
    destruct (nonEmpty indent && negb (nonEmpty (strings.TrimSpace data)));
      cbn [fst]; now rewrite ?append_nil_r.
  - intros data buf prefix indent depth pw.
    now rewrite !serializeNode_comment.
  - intros data buf prefix indent depth pw.
    now rewrite !serializeNode_cdata.
  - intros target data buf prefix indent depth pw.
    now rewrite !serializeNode_pi.
  - intros kind buf prefix indent depth pw.
    cbn [serializeNodeWithOptions fst]. now rewrite append_nil_r.
  - intros tag attrs ch IH buf skipRoot prefix indent depth pw.
    destruct skipRoot.
    + rewrite !serializeElement_skipRoot. apply IH.
    + destruct (HasChildNodes (mkElement tag attrs ch)) eqn:Hc.
      * rewrite !serializeElement_children by exact Hc.
        cbn [FirstChild].
        rewrite (IH (buf ++ _)), (IH ("" ++ _)). cbn [fst append].
        now strings.
      * rewrite !serializeElement_empty by exact Hc. reflexivity.
  - intros buf prefix indent depth pw.
    cbn [serializeChildren fst]. now rewrite append_nil_r.
  - intros node IHn next IHc buf prefix indent depth pw.
    cbn [serializeChildren].
    rewrite (IHn buf), (IHn "").
    rewrite (IHc (buf ++ _)), (IHc ("" ++ _)). cbn [fst append].
    now strings.
Qed.

End Output.

(** ** The entry points *)

Section EntryPoints.

Variable EscapeString : string -> string.

Lemma serializeNode_nil buf node prefix indent depth pw :
  snd (serializeNodeWithOptions EscapeString buf node prefix indent depth pw)
  = nil.
Proof.
  destruct (serialize_frame EscapeString) as [H _]. now rewrite H.
Qed.

Lemma serializeElement_nil buf elem skipRoot prefix indent depth pw :
  snd (serializeElementWithOptions EscapeString buf elem skipRoot prefix
         indent depth pw) = nil.
Proof.
  destruct (serialize_frame EscapeString) as [_ [H _]]. now rewrite H.
Qed.

Lemma marshalElementWithOptions_eq elem prefix indent pw :
  marshalElementWithOptions EscapeString elem prefix indent pw
  = (fst (serializeElementWithOptions EscapeString "" elem false prefix
            indent 0 pw), nil).
Proof.
  unfold marshalElementWithOptions.
  pose proof (serializeElement_nil "" elem false prefix indent 0 pw) as H.
  destruct (serializeElementWithOptions _ _ _ _ _ _ _ _) as [b e].
  cbn [snd] in H. subst e. reflexivity.
Qed.

Lemma marshalNodeWithOptions_eq node prefix indent pw :
  marshalNodeWithOptions EscapeString node prefix indent pw
  = (fst (serializeNodeWithOptions EscapeString "" node prefix indent 0 pw),
     nil).
Proof.
  unfold marshalNodeWithOptions.
  pose proof (serializeNode_nil "" node prefix indent 0 pw) as H.
  destruct (serializeNodeWithOptions _ _ _ _ _ _ _) as [b e].
  cbn [snd] in H. subst e. reflexivity.
Qed.

Lemma marshalDOMWithOptions_eq doc prefix indent pw :
  marshalDOMWithOptions EscapeString doc prefix indent pw
  = (XMLDeclaration ++ lineEndOf indent
       ++ match DocumentElement doc with
          | Some root =>
              fst (serializeElementWithOptions EscapeString "" root false
                     prefix indent 0 pw)
          | None => ""
          end, nil).
Proof.
  unfold marshalDOMWithOptions, WriteString, lineEndOf. cbn [append].
  destruct (DocumentElement doc) as [root|].
  - destruct (serialize_frame EscapeString) as [_ [H _]]. rewrite H.
    destruct (nonEmpty indent); now rewrite ?append_assoc.
  - destruct (nonEmpty indent); now rewrite ?append_nil_r.
Qed.

(** C9: serializing a DOM Document, Element or other Node through
    [Marshal], [MarshalIndent] or [MarshalIndentWithOptions] returns a nil
    error, whatever the tree and the options. *)
Theorem Marshal_error_nil (v : DOMValue) (prefix indent : string)
  (preserveWhitespace : bool) :
  snd (Marshal EscapeString v) = nil
  /\ snd (MarshalIndent EscapeString v prefix indent preserveWhitespace)
     = nil
  /\ snd (MarshalIndentWithOptions EscapeString v prefix indent
            preserveWhitespace) = nil.
Proof.
  unfold MarshalIndent, MarshalIndentWithOptions, Marshal, marshalDOM,
    marshalElement, marshalNode.
  destruct v as [doc | node].
  - now rewrite !marshalDOMWithOptions_eq.
  - destruct node; rewrite ?marshalElementWithOptions_eq,
      ?marshalNodeWithOptions_eq; auto.
Qed.

(** C10: for a Document whose DocumentElement is nil the entry points
    succeed and return exactly the XML declaration, followed by one
    newline when the indent string is not empty and by nothing
    otherwise. *)
Theorem Marshal_empty_document (doc : Document) (prefix indent : string)
  (preserveWhitespace : bool) :
  DocumentElement doc = None ->
  Marshal EscapeString (DocumentValue doc) = (XMLDeclaration, nil)
  /\ MarshalIndentWithOptions EscapeString (DocumentValue doc) prefix indent
       preserveWhitespace
     = (XMLDeclaration ++ (if nonEmpty indent then NEWLINE else ""), nil)
  /\ MarshalIndent EscapeString (DocumentValue doc) prefix indent
       preserveWhitespace
     = (XMLDeclaration ++ (if nonEmpty indent then NEWLINE else ""), nil).
Proof.
  intros Hroot.
  unfold MarshalIndent, MarshalIndentWithOptions, Marshal, marshalDOM,
    marshalDOMWithOptions, WriteString.
  rewrite Hroot. cbn [nonEmpty append].
  destruct (nonEmpty indent); rewrite ?append_nil_r; auto.
Qed.

(** C3: [Marshal] of the document [books/book(id=1)/title/"Go"] is the
    declaration followed by the three nested elements, none of them
    self-closed. *)
Theorem Marshal_books :
  Marshal EscapeString (DocumentValue booksDoc)
  = ("<?xml version=" ++ DQUOTE ++ "1.0" ++ DQUOTE ++ "?>"
     ++ "<books><book id=" ++ DQUOTE ++ "1" ++ DQUOTE
     ++ "><title>Go</title></book></books>", nil).
Proof. reflexivity. Qed.

(** C5: an element without child nodes is written as its open tag
    immediately followed by the matching close tag; the text written is
    never the self-closing form of that tag. *)
Theorem empty_element_paired_tags (buf : Buffer) (elem : Element)
  (prefix indent : string) (depth : nat) (preserveWhitespace : bool) :
  HasChildNodes elem = false ->
  serializeElementWithOptions EscapeString buf elem false prefix indent depth
    preserveWhitespace
  = (buf ++ indentOf indent depth
         ++ openTag EscapeString preserveWhitespace elem
         ++ "></" ++ TagName elem ++ ">" ++ lineEndOf indent, nil)
  /\ (Attributes elem = [] -> indent = "" ->
      marshalElementWithOptions EscapeString elem prefix indent
        preserveWhitespace
      = ("<" ++ TagName elem ++ "></" ++ TagName elem ++ ">", nil))
  /\ fst (serializeElementWithOptions EscapeString buf elem false prefix
            indent depth preserveWhitespace)
     <> buf ++ indentOf indent depth
            ++ openTag EscapeString preserveWhitespace elem
            ++ "/>" ++ lineEndOf indent.
Proof.
  intros Hc. split; [|split].
  - now apply serializeElement_empty.
  - intros Ha Hi. rewrite marshalElementWithOptions_eq.
    rewrite serializeElement_empty by exact Hc.
    unfold openTag. rewrite Ha, Hi. cbn. now rewrite append_nil_r.
  - rewrite serializeElement_empty by exact Hc. cbn [fst]. intros H.
    do 3 apply append_inj_l in H. discriminate H.
Qed.

End EntryPoints.

Lemma Marshal_empty_document_witness :
  DocumentElement (mkDocument None) = None
  /\ Marshal xml.EscapeText (DocumentValue (mkDocument None))
     = (XMLDeclaration, nil)
  /\ MarshalIndentWithOptions xml.EscapeText (DocumentValue (mkDocument None))
       "" "  " false = (XMLDeclaration ++ NEWLINE, nil)
  /\ MarshalIndent xml.EscapeText (DocumentValue (mkDocument None))
       "" "  " false = (XMLDeclaration ++ NEWLINE, nil).
Proof.
  split; [reflexivity|].
  apply (Marshal_empty_document xml.EscapeText (mkDocument None) "" "  "
           false).
  reflexivity.
Defined.

Lemma empty_element_paired_tags_witness :
  HasChildNodes (mkElement "state" [] NoNode) = false
  /\ marshalElementWithOptions xml.EscapeText (mkElement "state" [] NoNode)
       "" "" true = ("<state></state>", nil).
Proof.
  split; [reflexivity|].
  apply (empty_element_paired_tags xml.EscapeText ""
           (mkElement "state" [] NoNode) "" "" 0 true);
    reflexivity.
Defined.

(** ** White space between elements *)

Lemma dropWhile_all {A} (f : A -> bool) (l : list A) :
  forallb f l = true -> strings.dropWhile f l = [].
Proof.
  induction l as [|x l IH]; simpl; [reflexivity|].
  destruct (f x); simpl; [exact IH | discriminate].
Qed.

Lemma substring_nothing (n : nat) (s : string) : substring n 0 s = "".
Proof.
  revert n. induction s as [|c s IH]; intros [|n]; simpl; auto.
Qed.

Lemma TrimSpace_whitespaceOnly (data : string) :
  whitespaceOnly data = true -> strings.TrimSpace data = "".
Proof.
  unfold whitespaceOnly, strings.TrimSpace. intros H.
  rewrite (dropWhile_all _ _ H). simpl. apply substring_nothing.
Qed.

Section Whitespace.

Variable EscapeString : string -> string.

(** C8: a Text child whose data is entirely white space is omitted when
    the indent string is not empty: the writer leaves the buffer as it
    is and goes on with the next sibling.  With an empty indent string
    the child is written, as the writer writes any text: as it is under
    [preserveWhitespace] and through [EscapeString] otherwise. *)
Theorem whitespace_text_child (buf : Buffer) (data : DOMString)
  (next : Siblings) (prefix indent : string) (depth : nat)
  (preserveWhitespace : bool) :
  whitespaceOnly data = true ->
  serializeNodeWithOptions EscapeString buf (TextNode data) prefix indent
    depth preserveWhitespace
  = (if nonEmpty indent then buf
     else buf ++ (if preserveWhitespace then data else EscapeString data),
     nil)
  /\ serializeChildren EscapeString buf (Sibling (TextNode data) next)
       prefix indent depth preserveWhitespace
     = serializeChildren EscapeString
         (if nonEmpty indent then buf
          else buf ++ (if preserveWhitespace then data
                       else EscapeString data))
         next prefix indent depth preserveWhitespace.
Proof.
  intros Hws.
  assert (Hnode :
    serializeNodeWithOptions EscapeString buf (TextNode data) prefix indent
      depth preserveWhitespace
    = (if nonEmpty indent then buf
       else buf ++ (if preserveWhitespace then data
                    else EscapeString data), nil)).
  { rewrite serializeNode_text, (TrimSpace_whitespaceOnly _ Hws).
    unfold indentOf, lineEndOf.
    destruct (nonEmpty indent); cbn [nonEmpty negb andb append];
      [reflexivity|].
    now rewrite append_nil_r. }
  split; [exact Hnode|].
  cbn [serializeChildren]. now rewrite Hnode.
Qed.

End Whitespace.

Lemma whitespace_text_child_witness :
  whitespaceOnly (" " ++ NEWLINE) = true
  /\ serializeChildren xml.EscapeText "<a>"
       (Sibling (TextNode (" " ++ NEWLINE)) NoNode) "" "  " 1 false
     = ("<a>", nil)
  /\ serializeChildren xml.EscapeText "<a>"
       (Sibling (TextNode (" " ++ NEWLINE)) NoNode) "" "" 1 false
     = ("<a> &#xA;", nil).
Proof.
  split; [reflexivity|]. split.
  - apply (whitespace_text_child xml.EscapeText "<a>" (" " ++ NEWLINE)
             NoNode "" "  " 1 false). reflexivity.
  - apply (whitespace_text_child xml.EscapeText "<a>" (" " ++ NEWLINE)
             NoNode "" "" 1 false). reflexivity.
Defined.

(** ** The indented form *)

Lemma lineStart_append (s t : string) :
  lineStart s -> lineStart t -> lineStart (s ++ t).
Proof.
  intros Hs [-> | [u ->]].
  - now rewrite append_nil_r.
  - right. exists (s ++ u). now rewrite append_assoc.
Qed.

Lemma lineStart_newline (s : string) : lineStart (s ++ NEWLINE).
Proof. right. now exists s. Qed.

Section Indented.

Variable EscapeString : string -> string.

Local Abbreviation serNode := (serializeNodeWithOptions EscapeString).
Local Abbreviation serElement := (serializeElementWithOptions EscapeString).
Local Abbreviation serChain := (serializeChildren EscapeString).

Lemma serChain_out buf child prefix indent depth pw :
  serChain buf child prefix indent depth pw
  = (buf ++ fst (serChain "" child prefix indent depth pw), nil).
Proof. apply serialize_frame. Qed.

Lemma serNode_out buf node prefix indent depth pw :
  serNode buf node prefix indent depth pw
  = (buf ++ fst (serNode "" node prefix indent depth pw), nil).
Proof. apply serialize_frame. Qed.

Lemma serElement_out buf elem skipRoot prefix indent depth pw :
  serElement buf elem skipRoot prefix indent depth pw
  = (buf ++ fst (serElement "" elem skipRoot prefix indent depth pw), nil).
Proof. apply serialize_frame. Qed.

(** An element always starts with its indentation and its open tag. *)
Lemma serElement_starts buf elem prefix indent depth pw :
  exists rest,
    fst (serElement buf elem false prefix indent depth pw)
    = buf ++ indentOf indent depth ++ "<" ++ TagName elem ++ rest.
Proof.
  destruct (HasChildNodes elem) eqn:Hc.
  - rewrite serializeElement_children by exact Hc.
    rewrite serChain_out. cbn [fst]. unfold openTag.
    eexists. repeat first [rewrite append_assoc | progress cbn [append]].
    reflexivity.
  - rewrite serializeElement_empty by exact Hc. cbn [fst]. unfold openTag.
    eexists. repeat first [rewrite append_assoc | progress cbn [append]].
    reflexivity.
Qed.

(** In the indented form an element ends with a newline. *)
Lemma serElement_ends buf elem prefix indent depth pw :
  indent <> "" ->
  exists body,
    fst (serElement buf elem false prefix indent depth pw)
    = body ++ NEWLINE.
Proof.
  intros Hi. apply nonEmpty_true in Hi.
  destruct (HasChildNodes elem) eqn:Hc.
  - rewrite serializeElement_children by exact Hc.
    rewrite serChain_out. cbn [fst]. unfold lineEndOf. rewrite Hi.
    eexists. rewrite <- !append_assoc. reflexivity.
  - rewrite serializeElement_empty by exact Hc. cbn [fst].
    unfold lineEndOf. rewrite Hi.
    eexists. rewrite <- !append_assoc. reflexivity.
Qed.

(** In the indented form every node is written as whole lines. *)
Lemma serNode_lines buf node prefix indent depth pw :
  indent <> "" -> lineStart buf ->
  lineStart (fst (serNode buf node prefix indent depth pw)).
Proof.
  intros Hi Hb. pose proof Hi as Hn. apply nonEmpty_true in Hn.
  destruct node as [elem | data | data | data | target data | kind].
  - cbn [serializeNodeWithOptions].
    destruct (serElement_ends buf elem prefix indent depth pw Hi)
      as [body ->].
    apply lineStart_newline.
  - rewrite serializeNode_text.
    destruct (nonEmpty indent && negb (nonEmpty (strings.TrimSpace data)));
      cbn [fst]; [exact Hb|].
    unfold lineEndOf. rewrite Hn. rewrite <- !append_assoc.
    apply lineStart_newline.
  - rewrite serializeNode_comment. cbn [fst]. unfold lineEndOf. rewrite Hn.
    rewrite <- !append_assoc. apply lineStart_newline.
  - rewrite serializeNode_cdata. cbn [fst]. unfold lineEndOf. rewrite Hn.
    rewrite <- !append_assoc. apply lineStart_newline.
  - rewrite serializeNode_pi. cbn [fst]. unfold lineEndOf. rewrite Hn.
    rewrite <- !append_assoc. apply lineStart_newline.
  - exact Hb.
Qed.

(** The prefix argument is handed down and never written. *)
Lemma prefix_unused :
  (forall node buf prefix prefix' indent depth pw,
      serNode buf node prefix indent depth pw
      = serNode buf node prefix' indent depth pw)
  /\ (forall elem buf skipRoot prefix prefix' indent depth pw,
      serElement buf elem skipRoot prefix indent depth pw
      = serElement buf elem skipRoot prefix' indent depth pw)
  /\ (forall child buf prefix prefix' indent depth pw,
      serChain buf child prefix indent depth pw
      = serChain buf child prefix' indent depth pw).
Proof.
  apply DOM_mutind; try reflexivity.
  - intros elem IH buf prefix prefix' indent depth pw.
    cbn [serializeNodeWithOptions]. apply IH.
  - intros tag attrs ch IH buf skipRoot prefix prefix' indent depth pw.
    destruct skipRoot.
    + rewrite !serializeElement_skipRoot. apply IH.
    + destruct (HasChildNodes (mkElement tag attrs ch)) eqn:Hc.
      * rewrite !serializeElement_children by exact Hc.
        now rewrite (IH _ prefix prefix').
      * now rewrite !serializeElement_empty by exact Hc.
  - intros node IHn next IHc buf prefix prefix' indent depth pw.
    cbn [serializeChildren]. rewrite (IHn _ prefix prefix').
    destruct (serNode buf node prefix' indent depth pw) as [b [err|]];
      [reflexivity | apply IHc].
Qed.

End Indented.

Section Prefix.

Variable EscapeString : string -> string.

(** C7 at the document [booksDoc], with the prefix [#]: [MarshalIndent]
    with an indent of two spaces starts the line of every open tag with
    depth copies of the indent and nothing else, so that the prefix the
    claim has at the start of each line is nowhere in the output; with
    an empty indent the prefix alone gives the compact form, without any
    newline. *)
Theorem MarshalIndent_prefix_dropped :
  fst (MarshalIndent EscapeString (DocumentValue booksDoc) "#" "  " true)
  = XMLDeclaration ++ NEWLINE
    ++ "<books>" ++ NEWLINE
    ++ "  <book id=" ++ DQUOTE ++ "1" ++ DQUOTE ++ ">" ++ NEWLINE
    ++ "    <title>" ++ NEWLINE
    ++ "      Go" ++ NEWLINE
    ++ "    </title>" ++ NEWLINE
    ++ "  </book>" ++ NEWLINE
    ++ "</books>" ++ NEWLINE
  /\ strings.Contains
       (fst (MarshalIndent EscapeString (DocumentValue booksDoc)
               "#" "  " true)) "#" = false
  /\ fst (MarshalIndent EscapeString (DocumentValue booksDoc) "#" "" true)
     = XMLDeclaration ++ "<books><book id=" ++ DQUOTE ++ "1" ++ DQUOTE
       ++ "><title>Go</title></book></books>".
Proof. repeat split. Qed.

End Prefix.

(** ** The XML declaration *)

Lemma HasPrefix_append (p s : string) : strings.HasPrefix (p ++ s) p = true.
Proof.
  induction p as [|c p IH]; simpl; [reflexivity|].
  now rewrite Ascii.eqb_refl.
Qed.

(** ** Escaping *)

Lemma replace_same_byte (c : ascii) (s : string) :
  strings.replace s (String c "") (String c "") 0 = s.
Proof.
  induction s as [|a s IH]; [reflexivity|].
  cbn [strings.replace strings.HasPrefix String.length Nat.sub].
  rewrite andb_true_r. destruct (Ascii.eqb_spec a c) as [-> | Hne].
  - cbn [append]. now rewrite IH.
  - now rewrite IH.
Qed.

(** The [ReplaceAll] of the single-quote branch replaces the double quote
    by itself. *)
Lemma ReplaceAll_DQUOTE (s : string) : strings.ReplaceAll s DQUOTE DQUOTE = s.
Proof.
  unfold strings.ReplaceAll, DQUOTE. cbn [nonEmpty].
  apply replace_same_byte.
Qed.

Section Escaping.

Variable EscapeString : string -> string.

(** An attribute value that holds a double quote is written between
    single quotes: as it is under [preserveWhitespace], through
    [EscapeString] otherwise. *)
Lemma writeAttribute_single_quoted pw buf attr :
  strings.Contains (Value attr) DQUOTE = true ->
  writeAttribute EscapeString pw buf attr
  = buf ++ " " ++ Name attr ++ "='"
        ++ (if pw then Value attr else EscapeString (Value attr)) ++ "'".
Proof.
  intros Hq. unfold writeAttribute, WriteString. rewrite Hq.
  rewrite ReplaceAll_DQUOTE.
  destruct pw; cbn [negb];
    repeat first [rewrite append_assoc | progress cbn [append]];
    reflexivity.
Qed.

(** C1 at the document [textDoc]: [Marshal] writes the text [R&D <b>] of
    the root as it is, the ampersand and the angle brackets included,
    where the claim has [R&amp;D &lt;b&gt;]; the same text handed to
    [Marshal] as a node of its own goes through [EscapeString]. *)
Theorem Marshal_text_not_escaped :
  Marshal EscapeString (DocumentValue textDoc)
  = (XMLDeclaration ++ "<p>R&D <b></p>", nil)
  /\ Marshal EscapeString (NodeValue (TextNode "R&D <b>"))
     = (EscapeString "R&D <b>", nil).
Proof. split; reflexivity. Qed.

(** C6 at the document [condDoc]: with [preserveWhitespace] set the
    attribute value [a<b] and the text [x&y] are written as they are;
    without it both go through [EscapeString]. *)
Theorem preserveWhitespace_disables_escaping :
  MarshalIndentWithOptions EscapeString (DocumentValue condDoc) "" "" true
  = (XMLDeclaration ++ "<q cond=" ++ DQUOTE ++ "a<b" ++ DQUOTE ++ ">x&y</q>",
     nil)
  /\ MarshalIndentWithOptions EscapeString (DocumentValue condDoc) "" ""
       false
     = (XMLDeclaration ++ "<q cond=" ++ DQUOTE ++ EscapeString "a<b"
          ++ DQUOTE ++ ">" ++ EscapeString "x&y" ++ "</q>", nil).
Proof.
  split; [reflexivity|].
  unfold MarshalIndentWithOptions. rewrite marshalDOMWithOptions_eq.
  cbn. unfold WriteString.
  repeat first [rewrite append_assoc | progress cbn [append]].
  reflexivity.
Qed.

(** C2 at the element [quotedElement]: the value [it's "x"] is written
    between single quotes with its own single quote left as it is. *)
Theorem Marshal_single_quote_not_escaped :
  Marshal EscapeString (NodeValue (ElementNode quotedElement))
  = ("<a t='it's " ++ DQUOTE ++ "x" ++ DQUOTE ++ "'></a>", nil).
Proof. reflexivity. Qed.

End Escaping.

(** ** Further properties of the writers with options *)

Section Writers.

Variable EscapeString : string -> string.

Local Abbreviation serNode := (serializeNodeWithOptions EscapeString).
Local Abbreviation serElement := (serializeElementWithOptions EscapeString).
Local Abbreviation serChain := (serializeChildren EscapeString).

(** X1: the writers only append.  The buffer a writer returns is the
    buffer it was given followed by a text that does not depend on that
    buffer, for a node, for an element with or without [skipRoot], and
    for a chain of children. *)
Theorem writers_append_only (buf : Buffer) (node : Node) (elem : Element)
  (child : Siblings) (skipRoot : bool) (prefix indent : string)
  (depth : nat) (pw : bool) :
  fst (serNode buf node prefix indent depth pw)
  = buf ++ fst (serNode "" node prefix indent depth pw)
  /\ fst (serElement buf elem skipRoot prefix indent depth pw)
     = buf ++ fst (serElement "" elem skipRoot prefix indent depth pw)
  /\ fst (serChain buf child prefix indent depth pw)
     = buf ++ fst (serChain "" child prefix indent depth pw).
Proof.
  destruct (serialize_frame EscapeString) as (Hn & He & Hc).
  rewrite (Hn node buf), (He elem buf), (Hc child buf). auto.
Qed.

Lemma serChain_concat child prefix indent depth pw :
  fst (serChain "" child prefix indent depth pw)
  = concatAll
      (map (fun node => fst (serNode "" node prefix indent depth pw))
         (ChildNodes child)).
Proof.
  induction child as [|node next IH]; [reflexivity|].
  cbn [serializeChildren ChildNodes map concatAll fold_right].
  rewrite (serNode_out EscapeString "" node). cbn [append].
  rewrite serChain_out. cbn [fst]. now rewrite IH.
Qed.

Lemma serElement_children_text buf elem prefix indent depth pw :
  fst (serElement buf elem false prefix indent depth pw)
  = buf ++ indentOf indent depth ++ openTag EscapeString pw elem
        ++ (if HasChildNodes elem
            then ">" ++ lineEndOf indent
                     ++ fst (serChain "" (FirstChild elem) prefix indent
                               (depth + 1) pw)
                     ++ indentOf indent depth ++ "</"
            else "></")
        ++ TagName elem ++ ">" ++ lineEndOf indent.
Proof.
  destruct (HasChildNodes elem) eqn:Hc.
  - rewrite serializeElement_children by exact Hc.
    rewrite serChain_out. cbn [fst].
    repeat first [rewrite append_assoc | progress cbn [append]].
    reflexivity.
  - rewrite serializeElement_empty by exact Hc. reflexivity.
Qed.

(** X2: the text of an element is built from the texts of its children.
    With [skipRoot] the writer appends the texts of the child nodes, each
    written one level deeper, one after the other; without it, it wraps
    them between the open tag and the matching close tag, and writes
    [></name>] right after the open tag when there is no child. *)
Theorem element_structure (buf : Buffer) (elem : Element)
  (prefix indent : string) (depth : nat) (pw : bool) :
  let children :=
    concatAll
      (map (fun node => fst (serNode "" node prefix indent (depth + 1) pw))
         (ChildNodes (FirstChild elem))) in
  fst (serElement buf elem true prefix indent depth pw) = buf ++ children
  /\ fst (serElement buf elem false prefix indent depth pw)
     = buf ++ indentOf indent depth ++ openTag EscapeString pw elem
           ++ (if HasChildNodes elem
               then ">" ++ lineEndOf indent ++ children
                        ++ indentOf indent depth ++ "</"
               else "></")
           ++ TagName elem ++ ">" ++ lineEndOf indent.
Proof.
  intros children. subst children. rewrite <- serChain_concat. split.
  - rewrite serializeElement_skipRoot. now rewrite serChain_out.
  - apply serElement_children_text.
Qed.

(** In the compact form nothing is written for indentation. *)
Lemma indentOf_compact depth : indentOf "" depth = "".
Proof. reflexivity. Qed.

Lemma compact_depth :
  (forall node buf prefix depth depth' pw,
      serNode buf node prefix "" depth pw
      = serNode buf node prefix "" depth' pw)
  /\ (forall elem buf skipRoot prefix depth depth' pw,
      serElement buf elem skipRoot prefix "" depth pw
      = serElement buf elem skipRoot prefix "" depth' pw)
  /\ (forall child buf prefix depth depth' pw,
      serChain buf child prefix "" depth pw
      = serChain buf child prefix "" depth' pw).
Proof.
  apply DOM_mutind.
  - intros elem IH buf prefix depth depth' pw.
    cbn [serializeNodeWithOptions]. apply IH.
  - intros. now rewrite !serializeNode_text.
  - intros. now rewrite !serializeNode_comment.
  - intros. now rewrite !serializeNode_cdata.
  - intros. now rewrite !serializeNode_pi.
  - reflexivity.
  - intros tag attrs ch IH buf skipRoot prefix depth depth' pw.
    destruct skipRoot.
    + rewrite !serializeElement_skipRoot. apply IH.
    + destruct (HasChildNodes (mkElement tag attrs ch)) eqn:Hc.
      * rewrite !serializeElement_children by exact Hc.
        rewrite !indentOf_compact.
        now rewrite (IH _ prefix (depth + 1) (depth' + 1)).
      * now rewrite !serializeElement_empty by exact Hc.
  - reflexivity.
  - intros node IHn next IHc buf prefix depth depth' pw.
    cbn [serializeChildren]. rewrite (IHn _ prefix depth depth').
    destruct (serNode buf node prefix "" depth' pw) as [b [err|]];
      [reflexivity | apply IHc].
Qed.

End Writers.

Section Compact.

Variable EscapeString : string -> string.

Lemma MarshalIndentWithOptions_node node prefix indent pw :
  MarshalIndentWithOptions EscapeString (NodeValue node) prefix indent pw
  = (fst (serializeNodeWithOptions EscapeString "" node prefix indent 0 pw),
     nil).
Proof.
  unfold MarshalIndentWithOptions.
  destruct node; rewrite ?marshalElementWithOptions_eq,
    ?marshalNodeWithOptions_eq; reflexivity.
Qed.

(** X3: the compact form composes.  With an empty indent string the text
    [MarshalIndentWithOptions] returns for an element is its open tag,
    the texts the same call returns for each of its child nodes, one
    after the other, and its close tag; nothing is written between
    them, and a childless element is its open tag and its close tag. *)
Theorem compact_form_composes (elem : Element) (prefix : string)
  (pw : bool) :
  fst (MarshalIndentWithOptions EscapeString (NodeValue (ElementNode elem))
         prefix "" pw)
  = openTag EscapeString pw elem
    ++ (if HasChildNodes elem
        then ">" ++ concatAll
                      (map (fun node =>
                              fst (MarshalIndentWithOptions EscapeString
                                     (NodeValue node) prefix "" pw))
                         (ChildNodes (FirstChild elem)))
                 ++ "</"
        else "></")
    ++ TagName elem ++ ">".
Proof.
  rewrite MarshalIndentWithOptions_node. cbn [fst serializeNodeWithOptions].
  rewrite serElement_children_text, serChain_concat.
  rewrite indentOf_compact. cbn [append lineEndOf nonEmpty].
  f_equal.
  destruct (HasChildNodes elem); [|reflexivity].
  do 4 f_equal. apply map_ext. intros node.
  rewrite MarshalIndentWithOptions_node. cbn [fst].
  destruct (compact_depth EscapeString) as [Hn _].
  now rewrite (Hn node "" prefix (0 + 1) 0 pw).
Qed.

End Compact.

(** ** What [preserveWhitespace] does *)

Section Preserve.

Variable EscapeString : string -> string.

Lemma writeAttributes_raw buf attrs :
  writeAttributes EscapeString true buf attrs
  = writeAttributes noEscape false buf attrs.
Proof.
  unfold writeAttributes. revert buf.
  induction attrs as [|a attrs IH]; intros buf; [reflexivity|].
  cbn [fold_left]. rewrite <- IH. f_equal.
  unfold writeAttribute. cbn [negb]. rewrite ReplaceAll_DQUOTE.
  reflexivity.
Qed.

Lemma openTag_raw elem :
  openTag EscapeString true elem = openTag noEscape false elem.
Proof. unfold openTag. now rewrite writeAttributes_raw. Qed.

Lemma preserve_raw :
  (forall node buf prefix indent depth,
      serializeNodeWithOptions EscapeString buf node prefix indent depth true
      = serializeNodeWithOptions noEscape buf node prefix indent depth false)
  /\ (forall elem buf skipRoot prefix indent depth,
      serializeElementWithOptions EscapeString buf elem skipRoot prefix
        indent depth true
      = serializeElementWithOptions noEscape buf elem skipRoot prefix
          indent depth false)
  /\ (forall child buf prefix indent depth,
      serializeChildren EscapeString buf child prefix indent depth true
      = serializeChildren noEscape buf child prefix indent depth false).
Proof.
  apply DOM_mutind; try reflexivity.
  - intros elem IH buf prefix indent depth.
    cbn [serializeNodeWithOptions]. apply IH.
  - intros tag attrs ch IH buf skipRoot prefix indent depth.
    destruct skipRoot.
    + rewrite !serializeElement_skipRoot. apply IH.
    + destruct (HasChildNodes (mkElement tag attrs ch)) eqn:Hc.
      * rewrite !serializeElement_children by exact Hc.
        now rewrite openTag_raw, IH.
      * rewrite !serializeElement_empty by exact Hc.
        now rewrite openTag_raw.
  - intros node IHn next IHc buf prefix indent depth.
    cbn [serializeChildren]. rewrite IHn.
    destruct (serializeNodeWithOptions noEscape buf node prefix indent depth
                false) as [b [err|]]; [reflexivity | apply IHc].
Qed.

(** X4: with [preserveWhitespace] set nothing is escaped.  The entry
    points then return what they return with the flag cleared and an
    escape function that changes nothing, whatever [EscapeString] is;
    so does [Marshal] on a Document and on an Element. *)
Theorem preserveWhitespace_is_no_escaping (v : DOMValue) (doc : Document)
  (elem : Element) (prefix indent : string) :
  MarshalIndentWithOptions EscapeString v prefix indent true
  = MarshalIndentWithOptions noEscape v prefix indent false
  /\ MarshalIndent EscapeString v prefix indent true
     = MarshalIndent noEscape v prefix indent false
  /\ Marshal EscapeString (DocumentValue doc)
     = MarshalIndentWithOptions noEscape (DocumentValue doc) "" "" false
  /\ Marshal EscapeString (NodeValue (ElementNode elem))
     = MarshalIndentWithOptions noEscape (NodeValue (ElementNode elem))
         "" "" false.
Proof.
  destruct preserve_raw as (Hn & He & _).
  assert (Hdoc : forall d p i,
    marshalDOMWithOptions EscapeString d p i true
    = marshalDOMWithOptions noEscape d p i false).
  { intros d p i. rewrite !marshalDOMWithOptions_eq.
    destruct (DocumentElement d) as [root|]; [|reflexivity].
    now rewrite He. }
  assert (Helem : forall e p i,
    marshalElementWithOptions EscapeString e p i true
    = marshalElementWithOptions noEscape e p i false).
  { intros e p i. rewrite !marshalElementWithOptions_eq. now rewrite He. }
  unfold MarshalIndent, Marshal, marshalDOM, marshalElement.
  assert (Hv : MarshalIndentWithOptions EscapeString v prefix indent true
               = MarshalIndentWithOptions noEscape v prefix indent false).
  { unfold MarshalIndentWithOptions. destruct v as [d | node].
    - apply Hdoc.
    - destruct node; try apply Helem;
        rewrite !marshalNodeWithOptions_eq; now rewrite Hn. }
  repeat split; try exact Hv.
  - unfold MarshalIndentWithOptions. apply Hdoc.
  - unfold MarshalIndentWithOptions. apply Helem.
Qed.

End Preserve.

(** ** The writers without options *)

Section PlainWriters.

Variable EscapeString : string -> string.

Local Abbreviation plNode := (serializeNode EscapeString).
Local Abbreviation plElement := (serializeElement EscapeString).
Local Abbreviation plChain := (serializeChildNodes EscapeString).

Ltac normalize :=
  unfold indentation, lineEnd, indentOf, lineEndOf, WriteString;
  repeat first [rewrite append_assoc | progress cbn [append negb]];
  rewrite ?append_nil_r.

Lemma writeAttributesPlain_frame attrs buf :
  writeAttributesPlain EscapeString buf attrs
  = buf ++ writeAttributesPlain EscapeString "" attrs.
Proof.
  unfold writeAttributesPlain. revert buf.
  induction attrs as [|a attrs IH]; intros buf; cbn [fold_left].
  - now rewrite append_nil_r.
  - rewrite IH, (IH (writeAttributePlain _ "" a)).
    rewrite <- append_assoc. f_equal. unfold writeAttributePlain.
    destruct (strings.Contains (Value a) DQUOTE); normalize; reflexivity.
Qed.

Lemma plElement_empty buf elem prefix indent depth :
  HasChildNodes elem = false ->
  plElement buf elem false prefix indent depth
  = (buf ++ indentOf indent depth ++ openTagPlain EscapeString elem
         ++ "></" ++ TagName elem ++ ">" ++ lineEndOf indent, nil).
Proof.
  intros Hc. destruct elem as [tag attrs ch]. cbn [serializeElement].
  rewrite Hc. cbn [negb andb]. rewrite andb_true_r.
  unfold openTagPlain. rewrite (writeAttributesPlain_frame attrs).
  cbn [TagName Attributes].
  destruct (nonEmpty indent) eqn:Hi; normalize; rewrite Hi; normalize;
    reflexivity.
Qed.

Lemma plElement_children buf elem prefix indent depth :
  HasChildNodes elem = true ->
  plElement buf elem false prefix indent depth
  = match plChain
            (buf ++ indentOf indent depth ++ openTagPlain EscapeString elem
                 ++ ">" ++ lineEndOf indent)
            (FirstChild elem) prefix indent (depth + 1) with
    | (buf', Some err) => (buf', Some err)
    | (buf', None) =>
        (buf' ++ indentOf indent depth ++ "</" ++ TagName elem ++ ">"
              ++ lineEndOf indent, nil)
    end.
Proof.
  intros Hc. destruct elem as [tag attrs ch]. cbn [serializeElement].
  rewrite Hc. cbn [negb andb]. rewrite !andb_true_r.
  unfold openTagPlain. rewrite (writeAttributesPlain_frame attrs).
  cbn [TagName Attributes FirstChild].
  match goal with
  | |- match plChain ?b1 _ _ _ _ with _ => _ end
       = match plChain ?b2 _ _ _ _ with _ => _ end =>
      replace b1 with b2
  end.
  - destruct (plChain _ ch prefix indent (depth + 1)) as [b [e|]];
      [reflexivity|].
    destruct (nonEmpty indent) eqn:Hi; normalize; rewrite Hi; normalize;
      reflexivity.
  - destruct (nonEmpty indent) eqn:Hi; normalize; rewrite ?Hi; normalize;
      reflexivity.
Qed.

Lemma plElement_skipRoot buf elem prefix indent depth :
  plElement buf elem true prefix indent depth
  = plChain buf (FirstChild elem) prefix indent (depth + 1).
Proof.
  destruct elem as [tag attrs ch]. cbn [serializeElement].
  rewrite andb_false_r. cbn [negb FirstChild].
  now destruct (plChain buf ch prefix indent (depth + 1)) as [b [e|]].
Qed.

Lemma plNode_leaf buf node prefix indent depth :
  (forall elem, node <> ElementNode elem) ->
  plNode buf node prefix indent depth
  = (buf ++ fst (plNode "" node prefix indent depth), nil).
Proof.
  intros Hleaf.
  destruct node as [elem | data | data | data | target data | kind];
    cbn [serializeNode].
  - now destruct (Hleaf elem).
  - destruct (nonEmpty indent && negb (nonEmpty (strings.TrimSpace data)));
      cbn [fst]; [now rewrite append_nil_r|].
    destruct (nonEmpty indent) eqn:Hi; normalize; rewrite ?Hi; normalize;
      reflexivity.
  - destruct (nonEmpty indent) eqn:Hi; normalize; rewrite ?Hi; normalize;
      reflexivity.
  - destruct (nonEmpty indent) eqn:Hi; normalize; rewrite ?Hi; normalize;
      reflexivity.
  - destruct (nonEmpty indent) eqn:Hi, (nonEmpty data); normalize;
      rewrite ?Hi; normalize; reflexivity.
  - cbn [fst]. now rewrite append_nil_r.
Qed.

Lemma plain_frame :
  (forall node buf prefix indent depth,
      plNode buf node prefix indent depth
      = (buf ++ fst (plNode "" node prefix indent depth), nil))
  /\ (forall elem buf skipRoot prefix indent depth,
      plElement buf elem skipRoot prefix indent depth
      = (buf ++ fst (plElement "" elem skipRoot prefix indent depth), nil))
  /\ (forall child buf prefix indent depth,
      plChain buf child prefix indent depth
      = (buf ++ fst (plChain "" child prefix indent depth), nil)).
Proof.
  apply DOM_mutind;
    try (intros; apply plNode_leaf; intros e; discriminate).
  - intros elem IH buf prefix indent depth.
    cbn [serializeNode]. apply IH.
  - intros tag attrs ch IH buf skipRoot prefix indent depth.
    destruct skipRoot.
    + rewrite !plElement_skipRoot. apply IH.
    + destruct (HasChildNodes (mkElement tag attrs ch)) eqn:Hc.
      * rewrite !plElement_children by exact Hc. cbn [FirstChild].
        rewrite (IH (buf ++ _)), (IH ("" ++ _)). cbn [fst append].
        repeat rewrite append_assoc. reflexivity.
      * rewrite !plElement_empty by exact Hc. reflexivity.
  - intros buf prefix indent depth.
    cbn [serializeChildNodes fst]. now rewrite append_nil_r.
  - intros node IHn next IHc buf prefix indent depth.
    cbn [serializeChildNodes].
    rewrite (IHn buf), (IHn "").
    rewrite (IHc (buf ++ _)), (IHc ("" ++ _)). cbn [fst append].
    now rewrite append_assoc.
Qed.

(** X5: [serializeNode] and [serializeElement] return a nil error on
    every tree, and only append: the buffer they return is the buffer
    they were given followed by a text that does not depend on it. *)
Theorem plain_writers_append_only (buf : Buffer) (node : Node)
  (elem : Element) (skipRoot : bool) (prefix indent : string)
  (depth : nat) :
  plNode buf node prefix indent depth
  = (buf ++ fst (plNode "" node prefix indent depth), nil)
  /\ plElement buf elem skipRoot prefix indent depth
     = (buf ++ fst (plElement "" elem skipRoot prefix indent depth), nil).
Proof.
  destruct plain_frame as (Hn & He & _). split; [apply Hn | apply He].
Qed.

End PlainWriters.

Section PlainAgreement.

Variable EscapeString : string -> string.

Lemma writeAttributesPlain_agree attrs buf :
  forallb (fun a => negb (strings.Contains (Value a) DQUOTE)) attrs = true ->
  writeAttributesPlain EscapeString buf attrs
  = writeAttributes EscapeString false buf attrs.
Proof.
  unfold writeAttributesPlain, writeAttributes. revert buf.
  induction attrs as [|a attrs IH]; intros buf Hq; [reflexivity|].
  cbn [forallb] in Hq. apply andb_true_iff in Hq. destruct Hq as [Ha Hq].
  apply negb_true_iff in Ha.
  cbn [fold_left]. rewrite <- (IH _ Hq). f_equal.
  unfold writeAttributePlain, writeAttribute. now rewrite Ha.
Qed.

Lemma plain_agree :
  (forall node buf prefix indent depth,
      plainNode node = true ->
      serializeNode EscapeString buf node prefix indent depth
      = serializeNodeWithOptions EscapeString buf node prefix indent depth
          false)
  /\ (forall elem buf skipRoot prefix indent depth,
      plainElement elem = true ->
      serializeElement EscapeString buf elem skipRoot prefix indent depth
      = serializeElementWithOptions EscapeString buf elem skipRoot prefix
          indent depth false)
  /\ (forall child buf prefix indent depth,
      plainChildren child = true ->
      serializeChildNodes EscapeString buf child prefix indent depth
      = serializeChildren EscapeString buf child prefix indent depth false).
Proof.
  apply DOM_mutind; try reflexivity.
  - intros elem IH buf prefix indent depth Hp.
    cbn [serializeNode serializeNodeWithOptions]. now apply IH.
  - intros data buf prefix indent depth Hp. discriminate Hp.
  - intros tag attrs ch IH buf skipRoot prefix indent depth Hp.
    cbn [plainElement] in Hp. apply andb_true_iff in Hp.
    destruct Hp as [Ha Hc].
    assert (Hopen : openTagPlain EscapeString (mkElement tag attrs ch)
                    = openTag EscapeString false (mkElement tag attrs ch)).
    { unfold openTagPlain, openTag. cbn [Attributes].
      now rewrite (writeAttributesPlain_agree attrs "" Ha). }
    destruct skipRoot.
    + rewrite plElement_skipRoot, serializeElement_skipRoot. now apply IH.
    + destruct (HasChildNodes (mkElement tag attrs ch)) eqn:Hh.
      * rewrite plElement_children, serializeElement_children by exact Hh.
        rewrite Hopen. cbn [FirstChild]. now rewrite (IH _ _ _ _ Hc).
      * rewrite plElement_empty, serializeElement_empty by exact Hh.
        now rewrite Hopen.
  - intros node IHn next IHc buf prefix indent depth Hp.
    cbn [plainChildren] in Hp. apply andb_true_iff in Hp.
    destruct Hp as [Hn Hc].
    cbn [serializeChildNodes serializeChildren].
    rewrite (IHn _ _ _ _ Hn).
    destruct (serializeNodeWithOptions EscapeString buf node prefix indent
                depth false) as [b [err|]]; [reflexivity | now apply IHc].
Qed.

(** X6: on a tree without comments and without attribute values that
    hold a double quote, [serializeNode] and [serializeElement] write
    what [serializeNodeWithOptions] and [serializeElementWithOptions]
    write with [preserveWhitespace] cleared. *)
Theorem plain_writers_agree (buf : Buffer) (node : Node) (elem : Element)
  (skipRoot : bool) (prefix indent : string) (depth : nat) :
  plainNode node = true ->
  plainElement elem = true ->
  serializeNode EscapeString buf node prefix indent depth
  = serializeNodeWithOptions EscapeString buf node prefix indent depth false
  /\ serializeElement EscapeString buf elem skipRoot prefix indent depth
     = serializeElementWithOptions EscapeString buf elem skipRoot prefix
         indent depth false.
Proof.
  intros Hn He. destruct plain_agree as (Pn & Pe & _).
  split; [now apply Pn | now apply Pe].
Qed.

End PlainAgreement.

Lemma plain_writers_agree_witness :
  plainNode (TextNode "a<b") = true
  /\ plainElement (mkElement "book" [mkAttr "id" "1"]
                     (Sibling (TextNode "a<b") NoNode)) = true
  /\ serializeElement xml.EscapeText ""
       (mkElement "book" [mkAttr "id" "1"] (Sibling (TextNode "a<b") NoNode))
       false "" "" 0
     = serializeElementWithOptions xml.EscapeText ""
         (mkElement "book" [mkAttr "id" "1"]
            (Sibling (TextNode "a<b") NoNode))
         false "" "" 0 false.
Proof.
  split; [reflexivity|]. split; [reflexivity|].
  apply (plain_writers_agree xml.EscapeText "" (TextNode "a<b")
           (mkElement "book" [mkAttr "id" "1"]
              (Sibling (TextNode "a<b") NoNode))
           false "" "" 0); reflexivity.
Defined.

(** ** The white space test *)

Lemma tail_length n acc s r :
  utf8.tail n acc s = Some r -> n <= String.length s.
Proof.
  revert acc s. induction n as [|n IH]; intros acc s H; [lia|].
  destruct s as [|c s]; [discriminate H|]. cbn [utf8.tail] in H.
  destruct (utf8.between 128 191 (N_of_ascii c)); [|discriminate H].
  apply IH in H. cbn [String.length]. lia.
Qed.

Lemma sequence_width lead lo hi n s :
  1 <= snd (utf8.sequence lead lo hi n s) <= S (String.length s).
Proof.
  unfold utf8.sequence. destruct s as [|c s]; cbn [snd String.length];
    [lia|].
  destruct (utf8.between lo hi (N_of_ascii c)); cbn [snd]; [|lia].
  destruct (utf8.tail n _ s) as [r|] eqn:Ht; cbn [snd]; [|lia].
  apply tail_length in Ht. lia.
Qed.

Lemma DecodeRuneInString_width c s :
  1 <= snd (utf8.DecodeRuneInString (String c s)) <= S (String.length s).
Proof.
  unfold utf8.DecodeRuneInString.
  repeat match goal with
         | |- context [if ?b then _ else _] => destruct b
         end;
    try apply sequence_width; cbn [snd]; lia.
Qed.

Lemma width_decode s k :
  k <= String.length s ->
  strings.width (utf8.decode s k) = String.length s - k.
Proof.
  revert k. induction s as [|c s IH]; intros k Hk; [reflexivity|].
  cbn [utf8.decode String.length] in *. destruct k as [|k].
  - pose proof (DecodeRuneInString_width c s) as Hw.
    set (rw := utf8.DecodeRuneInString (String c s)) in *.
    unfold strings.width. cbn [fold_right]. fold (strings.width
      (utf8.decode s (snd rw - 1))).
    rewrite IH by lia. lia.
  - rewrite IH by lia. lia.
Qed.

Lemma decode_widths s k :
  Forall (fun rw => 1 <= snd rw) (utf8.decode s k).
Proof.
  revert k. induction s as [|c s IH]; intros k; [constructor|].
  cbn [utf8.decode]. destruct k as [|k]; [|apply IH].
  constructor; [apply DecodeRuneInString_width | apply IH].
Qed.

Lemma dropWhile_incl {A} (f : A -> bool) (l : list A) (x : A) :
  In x (strings.dropWhile f l) -> In x l.
Proof.
  induction l as [|y l IH]; cbn [strings.dropWhile]; [auto|].
  destruct (f y); [right; now apply IH | auto].
Qed.

Lemma dropWhile_head {A} (f : A -> bool) (l : list A) x rest :
  strings.dropWhile f l = x :: rest -> f x = false.
Proof.
  induction l as [|y l IH]; cbn [strings.dropWhile]; [discriminate|].
  destruct (f y) eqn:Hy; [exact IH|].
  intros H. injection H as <- _. exact Hy.
Qed.

Lemma dropWhile_nil {A} (f : A -> bool) (l : list A) :
  strings.dropWhile f l = [] -> forallb f l = true.
Proof.
  induction l as [|y l IH]; cbn [strings.dropWhile forallb]; [auto|].
  destruct (f y); [exact IH | discriminate].
Qed.

Lemma width_dropWhile f l :
  strings.width (strings.dropWhile f l) <= strings.width l.
Proof.
  induction l as [|y l IH]; cbn [strings.dropWhile]; [lia|].
  destruct (f y); [|lia].
  unfold strings.width in *. cbn [fold_right]. lia.
Qed.

Lemma width_positive l :
  l <> [] -> Forall (fun rw : utf8.rune * nat => 1 <= snd rw) l ->
  1 <= strings.width l.
Proof.
  destruct l as [|x l]; [congruence|]. intros _ H.
  apply Forall_inv in H. unfold strings.width. cbn [fold_right]. lia.
Qed.

Lemma substring_something n m s :
  n < String.length s -> 1 <= m -> substring n m s <> "".
Proof.
  revert n. induction s as [|c s IH]; intros n Hn Hm;
    cbn [String.length] in Hn; [lia|].
  destruct n as [|n].
  - destruct m as [|m]; [lia|]. cbn [substring]. discriminate.
  - cbn [substring]. apply IH; lia.
Qed.

(** The test the writers make on a Text node, [TrimSpace(data) == ""],
    holds exactly of the strings that are entirely white space. *)
Lemma TrimSpace_empty_iff (data : string) :
  strings.TrimSpace data = "" <-> whitespaceOnly data = true.
Proof.
  split; [|apply TrimSpace_whitespaceOnly].
  unfold whitespaceOnly, strings.TrimSpace.
  pose proof (width_decode data 0 (Nat.le_0_l _)) as Hlen.
  pose proof (decode_widths data 0) as Hw.
  set (runes := utf8.decode data 0) in *.
  destruct (strings.dropWhile strings.isSpace runes) as [|x rest] eqn:Hrest.
  - intros _. now apply dropWhile_nil.
  - intros Htrim. exfalso. revert Htrim.
    assert (Hsub : forall y, In y (x :: rest) -> In y runes)
      by (intros y Hy; apply (dropWhile_incl strings.isSpace);
          now rewrite Hrest).
    assert (Hwrest : Forall (fun rw => 1 <= snd rw) (x :: rest)).
    { apply Forall_forall. intros y Hy.
      apply (proj1 (Forall_forall _ _) Hw). now apply Hsub. }
    pose proof (width_dropWhile strings.isSpace runes) as Hle.
    rewrite Hrest in Hle.
    pose proof (width_positive (x :: rest) ltac:(discriminate) Hwrest)
      as Hpos.
    set (back := strings.dropWhile strings.isSpace (rev (x :: rest))).
    assert (Hback : back <> []).
    { intros Hnil. apply dropWhile_nil in Hnil.
      rewrite forallb_forall in Hnil.
      assert (Hx : In x (rev (x :: rest)))
        by (apply -> in_rev; now left).
      apply Hnil in Hx. apply dropWhile_head in Hrest. congruence. }
    assert (Hkept : 1 <= strings.width (rev back)).
    { apply width_positive.
      - intros Hnil. apply Hback.
        rewrite <- (rev_involutive back), Hnil. reflexivity.
      - apply Forall_forall. intros y Hy. apply in_rev in Hy.
        apply dropWhile_incl in Hy. apply in_rev in Hy.
        apply (proj1 (Forall_forall _ _) Hwrest). exact Hy. }
    apply substring_something; lia.
Qed.

Section TextNodes.

Variable EscapeString : string -> string.

(** X7: a Text node is left out exactly when the indent string is not
    empty and every rune of its data is Unicode white space.  Any other
    Text node is written in full, its own leading and trailing white
    space included, after the indentation and before the line end of
    the indented form; the writer without options always writes it
    through [EscapeString]. *)
Theorem text_written_unless_blank (buf : Buffer) (data : DOMString)
  (prefix indent : string) (depth : nat) (pw : bool) :
  serializeNodeWithOptions EscapeString buf (TextNode data) prefix indent
    depth pw
  = (if nonEmpty indent && whitespaceOnly data then buf
     else buf ++ indentOf indent depth
              ++ (if pw then data else EscapeString data)
              ++ lineEndOf indent, nil)
  /\ serializeNode EscapeString buf (TextNode data) prefix indent depth
     = (if nonEmpty indent && whitespaceOnly data then buf
        else buf ++ indentOf indent depth ++ EscapeString data
                 ++ lineEndOf indent, nil).
Proof.
  assert (Htest : negb (nonEmpty (strings.TrimSpace data))
                  = whitespaceOnly data).
  { destruct (whitespaceOnly data) eqn:Hws.
    - now rewrite (proj2 (TrimSpace_empty_iff data) Hws).
    - destruct (strings.TrimSpace data) eqn:Ht; [|reflexivity].
      apply TrimSpace_empty_iff in Ht. congruence. }
  split.
  - rewrite serializeNode_text, Htest.
    now destruct (nonEmpty indent && whitespaceOnly data).
  - cbn [serializeNode]. rewrite Htest.
    destruct (nonEmpty indent && whitespaceOnly data); [reflexivity|].
    rewrite lineEnd_eq, indentation_eq. unfold WriteString.
    now rewrite !append_assoc.
Qed.

Lemma whitespaceTexts_skipped child buf prefix indent depth pw :
  indent <> "" -> whitespaceTexts child = true ->
  serializeChildren EscapeString buf child prefix indent depth pw
  = (buf, nil).
Proof.
  intros Hi. apply nonEmpty_true in Hi.
  induction child as [|node next IH]; intros Hws; [reflexivity|].
  cbn [whitespaceTexts] in Hws.
  destruct node as [e | data | d | d | t d | k]; try discriminate Hws.
  apply andb_true_iff in Hws. destruct Hws as [Hd Hnext].
  cbn [serializeChildren]. rewrite serializeNode_text.
  rewrite (TrimSpace_whitespaceOnly _ Hd), Hi. cbn [nonEmpty negb andb].
  now apply IH.
Qed.

(** X8: in the indented form an element whose child nodes are all white
    space Text nodes is not written like a childless element: its open
    tag and its close tag are on two lines with nothing in between. *)
Theorem blank_children_two_lines (buf : Buffer) (elem : Element)
  (prefix indent : string) (depth : nat) (pw : bool) :
  indent <> "" ->
  HasChildNodes elem = true ->
  whitespaceTexts (FirstChild elem) = true ->
  serializeElementWithOptions EscapeString buf elem false prefix indent
    depth pw
  = (buf ++ strings.Repeat indent depth ++ openTag EscapeString pw elem
         ++ ">" ++ NEWLINE
         ++ strings.Repeat indent depth ++ "</" ++ TagName elem ++ ">"
         ++ NEWLINE, nil).
Proof.
  intros Hi Hc Hws. rewrite serializeElement_children by exact Hc.
  rewrite (whitespaceTexts_skipped _ _ _ _ _ _ Hi Hws).
  apply nonEmpty_true in Hi. unfold indentOf, lineEndOf. rewrite Hi.
  now rewrite !append_assoc.
Qed.

End TextNodes.

Lemma blank_children_two_lines_witness :
  "  " <> ""
  /\ HasChildNodes (mkElement "a" [] (Sibling (TextNode " ") NoNode)) = true
  /\ whitespaceTexts
       (FirstChild (mkElement "a" [] (Sibling (TextNode " ") NoNode))) = true
  /\ serializeElementWithOptions xml.EscapeText ""
       (mkElement "a" [] (Sibling (TextNode " ") NoNode)) false "" "  " 0
       false
     = ("<a>" ++ NEWLINE ++ "</a>" ++ NEWLINE, nil).
Proof.
  assert (Hi : "  " <> "") by discriminate.
  split; [exact Hi|]. split; [reflexivity|]. split; [reflexivity|].
  apply (blank_children_two_lines xml.EscapeText ""
           (mkElement "a" [] (Sibling (TextNode " ") NoNode)) "" "  " 0
           false Hi); reflexivity.
Defined.

(** ** Attributes and the prefix *)

Section Attributes.

Variable EscapeString : string -> string.

Lemma writeAttribute_text pw buf attr :
  writeAttribute EscapeString pw buf attr
  = buf ++ attributeText EscapeString (negb pw) attr.
Proof.
  unfold writeAttribute, attributeText, WriteString.
  rewrite ReplaceAll_DQUOTE.
  destruct (strings.Contains (Value attr) DQUOTE), pw; cbn [negb];
    repeat first [rewrite append_assoc | progress cbn [append]];
    reflexivity.
Qed.

Lemma writeAttributePlain_text buf attr :
  writeAttributePlain EscapeString buf attr
  = buf ++ attributeText EscapeString
             (negb (strings.Contains (Value attr) DQUOTE)) attr.
Proof.
  unfold writeAttributePlain, attributeText, WriteString.
  destruct (strings.Contains (Value attr) DQUOTE); cbn [negb];
    repeat first [rewrite append_assoc | progress cbn [append]];
    reflexivity.
Qed.

(** X9: the attribute loop writes the attributes in the order of the
    map, each as a space, its name, [=] and its value between quotes,
    which are single quotes exactly when the value holds a double quote.
    With options every value is escaped unless [preserveWhitespace] is
    set, and the [ReplaceAll] of the single-quote branch changes
    nothing; without options the values between double quotes are
    escaped and those between single quotes are not. *)
Theorem attributes_written_in_order (buf : Buffer) (attrs : list Attr)
  (pw : bool) :
  writeAttributes EscapeString pw buf attrs
  = buf ++ concatAll (map (attributeText EscapeString (negb pw)) attrs)
  /\ writeAttributesPlain EscapeString buf attrs
     = buf ++ concatAll
                (map (fun attr =>
                        attributeText EscapeString
                          (negb (strings.Contains (Value attr) DQUOTE)) attr)
                   attrs).
Proof.
  unfold writeAttributes, writeAttributesPlain. split.
  - revert buf. induction attrs as [|a attrs IH]; intros buf;
      cbn [fold_left map concatAll fold_right].
    + now rewrite append_nil_r.
    + rewrite IH, writeAttribute_text. now rewrite append_assoc.
  - revert buf. induction attrs as [|a attrs IH]; intros buf;
      cbn [fold_left map concatAll fold_right].
    + now rewrite append_nil_r.
    + rewrite IH, writeAttributePlain_text. now rewrite append_assoc.
Qed.

(** X10: the prefix argument never changes a result: whatever the
    value, the indent string and the flag, [MarshalIndent] and
    [MarshalIndentWithOptions] return for any prefix what they return
    for the empty one, so that a prefix alone does not give the indented
    form. *)
Theorem prefix_never_written (v : DOMValue) (prefix indent : string)
  (pw : bool) :
  MarshalIndentWithOptions EscapeString v prefix indent pw
  = MarshalIndentWithOptions EscapeString v "" indent pw
  /\ MarshalIndent EscapeString v prefix indent pw
     = MarshalIndent EscapeString v "" indent pw
  /\ MarshalIndent EscapeString v prefix "" pw
     = MarshalIndent EscapeString v "" "" pw.
Proof.
  destruct (prefix_unused EscapeString) as (Hn & He & _).
  assert (H : forall i,
    MarshalIndentWithOptions EscapeString v prefix i pw
    = MarshalIndentWithOptions EscapeString v "" i pw).
  { intros i. unfold MarshalIndentWithOptions.
    destruct v as [doc | node].
    - rewrite !marshalDOMWithOptions_eq.
      destruct (DocumentElement doc) as [root|]; [|reflexivity].
      now rewrite (He root "" false prefix "").
    - destruct node;
        rewrite ?marshalElementWithOptions_eq, ?marshalNodeWithOptions_eq;
        try now rewrite (He _ "" false prefix "").
      all: now rewrite (Hn _ "" prefix ""). }
  unfold MarshalIndent. repeat split; apply H.
Qed.

End Attributes.

(** ** Lines of the indented form *)

Section Lines.

Variable EscapeString : string -> string.

(** X11: in the indented form the result is made of whole lines.  What
    the entry points return for any value is empty or ends with a
    newline, and for a Document or an Element it ends with a newline. *)
Theorem indented_result_ends_line (v : DOMValue) (prefix indent : string)
  (pw : bool) :
  indent <> "" ->
  lineStart
    (fst (MarshalIndentWithOptions EscapeString v prefix indent pw))
  /\ match v with
     | DocumentValue _ | NodeValue (ElementNode _) =>
         exists body,
           fst (MarshalIndent EscapeString v prefix indent pw)
           = body ++ NEWLINE
     | NodeValue _ => True
     end.
Proof.
  intros Hi. pose proof Hi as Hn. apply nonEmpty_true in Hn.
  unfold MarshalIndent, MarshalIndentWithOptions.
  destruct v as [doc | node].
  - rewrite marshalDOMWithOptions_eq. cbn [fst].
    unfold lineEndOf. rewrite Hn.
    destruct (DocumentElement doc) as [root|].
    + destruct (serElement_ends EscapeString "" root prefix indent 0 pw Hi)
        as [body ->].
      split; [|eexists]; rewrite <- !append_assoc;
        [apply lineStart_newline | reflexivity].
    + rewrite append_nil_r.
      split; [apply lineStart_newline | now eexists].
  - destruct node as [elem | data | data | data | target data | kind];
      rewrite ?marshalElementWithOptions_eq, ?marshalNodeWithOptions_eq;
      cbn [fst]; (split; [|try exact I]).
    + destruct (serElement_ends EscapeString "" elem prefix indent 0 pw Hi)
        as [body ->]. apply lineStart_newline.
    + apply (serElement_ends EscapeString "" elem prefix indent 0 pw Hi).
    + apply serNode_lines; [exact Hi | now left].
    + apply serNode_lines; [exact Hi | now left].
    + apply serNode_lines; [exact Hi | now left].
    + apply serNode_lines; [exact Hi | now left].
    + now left.
Qed.

End Lines.

Lemma indented_result_ends_line_witness :
  "  " <> ""
  /\ exists body,
       fst (MarshalIndent xml.EscapeText (DocumentValue booksDoc) "" "  "
              false) = body ++ NEWLINE.
Proof.
  assert (Hi : "  " <> "") by discriminate.
  split; [exact Hi|].
  apply (indented_result_ends_line xml.EscapeText (DocumentValue booksDoc)
           "" "  " false Hi).
Defined.

(** ** The declaration is written for documents only *)

Lemma XMLDeclaration_eq :
  XMLDeclaration = String "<" (String "?" declarationRest).
Proof. reflexivity. Qed.

Lemma questionFree_append (s t : string) :
  questionFree (s ++ t) = questionFree s && questionFree t.
Proof.
  induction s as [|c s IH]; cbn [append questionFree]; [reflexivity|].
  rewrite IH. apply andb_assoc.
Qed.

Lemma questionFree_Repeat (s : string) (count : nat) :
  questionFree s = true -> questionFree (strings.Repeat s count) = true.
Proof.
  intros Hs. induction count as [|n IH]; cbn [strings.Repeat];
    [reflexivity|].
  rewrite questionFree_append, Hs, IH. reflexivity.
Qed.

Lemma divergesFrom_append (p r t : string) :
  divergesFrom p r = true -> divergesFrom p (r ++ t) = true.
Proof.
  revert r. induction p as [|a p IH]; intros [|b r];
    cbn [divergesFrom append]; try discriminate.
  destruct (Ascii.eqb a b); [apply IH | reflexivity].
Qed.

Lemma declarationSafe_append (s t : string) :
  declarationSafe s = true -> declarationSafe t = true ->
  declarationSafe (s ++ t) = true.
Proof.
  intros Hs Ht. induction s as [|c s IH]; [exact Ht|].
  cbn [declarationSafe append] in *.
  apply andb_true_iff in Hs. destruct Hs as [Hc Hs].
  apply andb_true_iff. split; [|now apply IH].
  destruct (Ascii.eqb c "?"); [now apply divergesFrom_append | reflexivity].
Qed.

Lemma questionFree_safe (s : string) :
  questionFree s = true -> declarationSafe s = true.
Proof.
  induction s as [|c s IH]; [reflexivity|].
  cbn [questionFree declarationSafe]. intros H.
  apply andb_true_iff in H. destruct H as [Hc Hs].
  apply negb_true_iff in Hc. rewrite Hc. now apply IH.
Qed.

Lemma HasPrefix_diverges (r p : string) :
  strings.HasPrefix r p = true -> divergesFrom p r = false.
Proof.
  revert r. induction p as [|a p IH]; intros r H; [reflexivity|].
  destruct r as [|b r]; [discriminate H|].
  cbn [strings.HasPrefix] in H. apply andb_true_iff in H.
  destruct H as [Hb Hr]. apply Ascii.eqb_eq in Hb. subst b.
  cbn [divergesFrom]. rewrite Ascii.eqb_refl. now apply IH.
Qed.

(** A text in which the declaration occurs is not [declarationSafe]. *)
Lemma Contains_declaration (s : string) :
  strings.Contains s XMLDeclaration = true -> declarationSafe s = false.
Proof.
  rewrite XMLDeclaration_eq.
  induction s as [|c s IH]; [discriminate|].
  cbn [strings.Contains]. intros H. apply orb_true_iff in H.
  cbn [declarationSafe]. destruct H as [H | H].
  - cbn [strings.HasPrefix] in H. apply andb_true_iff in H.
    destruct H as [_ H]. destruct s as [|c1 s]; [discriminate H|].
    apply andb_true_iff in H. destruct H as [Hc1 Hrest].
    cbn [declarationSafe]. rewrite Hc1, (HasPrefix_diverges _ _ Hrest).
    apply andb_false_r.
  - rewrite (IH H). apply andb_false_r.
Qed.

(** Between its delimiters a processing instruction parts from the
    declaration unless it holds the text of the declaration. *)
Lemma instruction_diverges (w u rest : string) :
  questionFree w = true -> questionFree u = true -> u <> w ->
  divergesFrom (w ++ "?>") (u ++ "?>" ++ rest) = true.
Proof.
  revert u. induction w as [|a w IH]; intros [|b u] Hw Hu Hne;
    cbn [append divergesFrom questionFree] in *.
  - congruence.
  - apply andb_true_iff in Hu. destruct Hu as [Hb _].
    apply negb_true_iff in Hb. rewrite Ascii.eqb_sym, Hb. reflexivity.
  - apply andb_true_iff in Hw. destruct Hw as [Ha _].
    apply negb_true_iff in Ha. rewrite Ha. reflexivity.
  - apply andb_true_iff in Hw. destruct Hw as [_ Hw].
    apply andb_true_iff in Hu. destruct Hu as [_ Hu].
    destruct (Ascii.eqb_spec a b) as [-> | _]; [|reflexivity].
    apply IH; [exact Hw | exact Hu | congruence].
Qed.

Lemma instruction_safe (target data rest : string) :
  questionFree target = true -> questionFree data = true ->
  instructionText target data <> declarationText ->
  declarationSafe rest = true ->
  declarationSafe ("<?" ++ instructionText target data ++ "?>" ++ rest)
  = true.
Proof.
  intros Ht Hd Hne Hrest.
  assert (Hu : questionFree (instructionText target data) = true).
  { unfold instructionText. rewrite questionFree_append, Ht.
    destruct (nonEmpty data); [|reflexivity].
    rewrite questionFree_append, Hd. reflexivity. }
  cbn [append declarationSafe Ascii.eqb Bool.eqb andb].
  apply andb_true_iff. split.
  - unfold declarationRest. now apply instruction_diverges.
  - apply declarationSafe_append; [now apply questionFree_safe|].
    cbn [append declarationSafe Ascii.eqb Bool.eqb andb].
    now rewrite Hrest.
Qed.

Lemma EscapeText_questionFree (s : string) :
  questionFree s = true -> questionFree (xml.EscapeText s) = true.
Proof.
  induction s as [|c s IH]; [reflexivity|].
  cbn [questionFree xml.EscapeText]. intros H.
  apply andb_true_iff in H. destruct H as [Hc Hs].
  rewrite questionFree_append, (IH Hs), andb_true_r.
  unfold xml.escapeByte.
  repeat match goal with
         | |- context [if Ascii.eqb c ?a then _ else _] =>
             destruct (Ascii.eqb c a); [reflexivity|]
         end.
  cbn [questionFree]. now rewrite Hc.
Qed.

Section Declaration.

Variable EscapeString : string -> string.

Hypothesis EscapeString_questionFree :
  forall s, questionFree s = true -> questionFree (EscapeString s) = true.

Lemma escaped_questionFree (pw : bool) (data : string) :
  questionFree data = true ->
  questionFree (if pw then data else EscapeString data) = true.
Proof. destruct pw; [auto | apply EscapeString_questionFree]. Qed.

Lemma indentOf_questionFree indent depth :
  questionFree indent = true -> questionFree (indentOf indent depth) = true.
Proof.
  intros Hi. unfold indentOf.
  destruct (nonEmpty indent); [now apply questionFree_Repeat | reflexivity].
Qed.

Lemma lineEndOf_questionFree indent : questionFree (lineEndOf indent) = true.
Proof. unfold lineEndOf. now destruct (nonEmpty indent). Qed.

Lemma attributeText_questionFree escape attr :
  questionFree (Name attr) = true -> questionFree (Value attr) = true ->
  questionFree (attributeText EscapeString escape attr) = true.
Proof.
  intros Hn Hv. unfold attributeText.
  assert (Hval : questionFree (if escape then EscapeString (Value attr)
                               else Value attr) = true)
    by (destruct escape; auto).
  unfold DQUOTE.
  destruct (strings.Contains (Value attr) (String "034" ""));
    repeat first
      [ rewrite questionFree_append
      | progress cbn [append questionFree Ascii.eqb Bool.eqb negb andb] ];
    rewrite Hn, Hval; reflexivity.
Qed.

Lemma writeAttributes_questionFree pw attrs :
  forallb (fun a => questionFree (Name a) && questionFree (Value a)) attrs
  = true ->
  questionFree (writeAttributes EscapeString pw "" attrs) = true.
Proof.
  induction attrs as [|a attrs IH]; [reflexivity|].
  cbn [forallb]. intros H. apply andb_true_iff in H.
  destruct H as [Ha Hattrs]. apply andb_true_iff in Ha.
  destruct Ha as [Hn Hv].
  unfold writeAttributes. cbn [fold_left].
  fold (writeAttributes EscapeString pw
          (writeAttribute EscapeString pw "" a) attrs).
  rewrite writeAttributes_frame, writeAttribute_text. cbn [append].
  rewrite questionFree_append, (IH Hattrs), andb_true_r.
  now apply attributeText_questionFree.
Qed.

(** What the writers append for a subtree whose data does not spell a
    declaration is [declarationSafe]. *)
Ltac questions :=
  repeat first
    [ rewrite questionFree_append
    | progress cbn [append questionFree Ascii.eqb Bool.eqb negb andb] ].

Lemma writers_declarationSafe indent :
  questionFree indent = true ->
  (forall node prefix depth pw,
      spellsNoDeclaration node = true ->
      declarationSafe
        (fst (serializeNodeWithOptions EscapeString "" node prefix indent
                depth pw)) = true)
  /\ (forall elem prefix depth pw,
      spellsNoDeclarationElement elem = true ->
      declarationSafe
        (fst (serializeElementWithOptions EscapeString "" elem false prefix
                indent depth pw)) = true)
  /\ (forall child prefix depth pw,
      spellsNoDeclarationChildren child = true ->
      declarationSafe
        (fst (serializeChildren EscapeString "" child prefix indent depth
                pw)) = true).
Proof.
  intros Hi.
  assert (Hind := fun depth => indentOf_questionFree indent depth Hi).
  assert (Hend := lineEndOf_questionFree indent).
  apply DOM_mutind.
  - intros elem IH prefix depth pw Hs.
    cbn [serializeNodeWithOptions]. now apply IH.
  - intros data prefix depth pw Hs. cbn [spellsNoDeclaration] in Hs.
    rewrite serializeNode_text.
    destruct (nonEmpty indent && negb (nonEmpty (strings.TrimSpace data)));
      [reflexivity|].
    cbn [fst append]. apply questionFree_safe.
    questions.
    now rewrite Hind, Hend, (escaped_questionFree pw data Hs).
  - intros data prefix depth pw Hs. cbn [spellsNoDeclaration] in Hs.
    rewrite serializeNode_comment. cbn [fst append].
    apply questionFree_safe.
    questions.
    now rewrite Hind, Hend, (escaped_questionFree pw data Hs).
  - intros data prefix depth pw Hs. cbn [spellsNoDeclaration] in Hs.
    rewrite serializeNode_cdata. cbn [fst append].
    apply questionFree_safe.
    questions. now rewrite Hind, Hend, Hs.
  - intros target data prefix depth pw Hs.
    cbn [spellsNoDeclaration] in Hs.
    apply andb_true_iff in Hs. destruct Hs as [Hs Hne].
    apply andb_true_iff in Hs. destruct Hs as [Ht Hd].
    apply negb_true_iff, String.eqb_neq in Hne.
    rewrite serializeNode_pi. cbn [fst].
    change (declarationSafe
              (indentOf indent depth
               ++ ("<?" ++ target
                        ++ (if nonEmpty data then " " ++ data else "")
                        ++ "?>" ++ lineEndOf indent)) = true).
    apply declarationSafe_append; [now apply questionFree_safe|].
    replace ("<?" ++ target ++ (if nonEmpty data then " " ++ data else "")
                  ++ "?>" ++ lineEndOf indent)
      with ("<?" ++ instructionText target data ++ "?>" ++ lineEndOf indent)
      by (unfold instructionText; now rewrite !append_assoc).
    apply instruction_safe; auto. now apply questionFree_safe.
  - reflexivity.
  - intros tag attrs ch IH prefix depth pw Hs.
    cbn [spellsNoDeclarationElement] in Hs.
    apply andb_true_iff in Hs. destruct Hs as [Hs Hch].
    apply andb_true_iff in Hs. destruct Hs as [Htag Hattrs].
    assert (Hopen : questionFree
                      (openTag EscapeString pw (mkElement tag attrs ch))
                    = true).
    { unfold openTag. cbn [TagName Attributes]. questions.
      now rewrite Htag, (writeAttributes_questionFree pw attrs Hattrs). }
    rewrite serElement_children_text. cbn [TagName FirstChild].
    assert (Hclose : declarationSafe (tag ++ ">" ++ lineEndOf indent) = true).
    { apply questionFree_safe. questions. now rewrite Htag, Hend. }
    apply (declarationSafe_append ""); [reflexivity|].
    apply declarationSafe_append; [now apply questionFree_safe|].
    apply declarationSafe_append; [now apply questionFree_safe|].
    apply declarationSafe_append; [|exact Hclose].
    destruct (HasChildNodes (mkElement tag attrs ch)); [|reflexivity].
    apply (declarationSafe_append ">"); [reflexivity|].
    apply declarationSafe_append; [now apply questionFree_safe|].
    apply declarationSafe_append; [now apply IH|].
    apply declarationSafe_append; [now apply questionFree_safe|reflexivity].
  - reflexivity.
  - intros node IHn next IHc prefix depth pw Hs.
    cbn [spellsNoDeclarationChildren] in Hs.
    apply andb_true_iff in Hs. destruct Hs as [Hn Hc].
    cbn [serializeChildren]. rewrite serNode_out. cbn [append].
    rewrite serChain_out. cbn [fst].
    apply declarationSafe_append; [now apply IHn | now apply IHc].
Qed.

Lemma node_without_declaration node prefix indent pw :
  questionFree indent = true -> spellsNoDeclaration node = true ->
  strings.Contains
    (fst (serializeNodeWithOptions EscapeString "" node prefix indent 0 pw))
    XMLDeclaration = false.
Proof.
  intros Hi Hs.
  destruct (writers_declarationSafe indent Hi) as [Hn _].
  specialize (Hn node prefix 0 pw Hs).
  destruct (strings.Contains _ XMLDeclaration) eqn:Hc; [|reflexivity].
  apply Contains_declaration in Hc. congruence.
Qed.


(** The hypothesis on the data is as weak as a processing instruction
    allows: one that holds the text of the declaration is written, by
    [Marshal] as by any entry point, as the declaration. *)
Example instruction_spells_declaration :
  spellsNoDeclaration
    (ProcessingInstructionNode "xml"
       ("version=" ++ DQUOTE ++ "1.0" ++ DQUOTE)) = false
  /\ Marshal EscapeString
       (NodeValue (ProcessingInstructionNode "xml"
                     ("version=" ++ DQUOTE ++ "1.0" ++ DQUOTE)))
     = (XMLDeclaration, nil).
Proof. split; reflexivity. Qed.

End Declaration.

